(** * Jules job monitor and event watcher: a shallow embedding

    The programs of the repository embedded here:

    - [Monitor] follows [scripts/jules_monitor.py]: the polling cycle
      [monitor_once] over the tracked jobs, with the question predicate
      [is_question_message] and the stuck test [should_emit_stuck].
    - [Watcher] follows [jules-mpc-python/scripts/jules_event_watcher.py]:
      the tailing loop [watch] with its persisted byte offset.
    - [MonitorMain] follows the rest of [main] in [scripts/jules_monitor.py]:
      the settings taken from [parse_args] and the configuration file, and
      the state file that is loaded at the start and written at every turn.
    - [Handler] follows the dispatch of
      [jules-mpc-python/scripts/event_handler.py], and [McpServer] the tool
      calls of [mcp-server/jules_mcp_server.py] the handler reaches.

    Python strings are modelled as [string] (ASCII text, which is what
    [json.dumps] writes by default); the per-job state dictionary is a
    [gmap string JobState]; the standard-library and network operations the
    scripts call ([urlopen], the clock, [urljoin], [fromisoformat], the
    floating-point comparison of [total_seconds], [json.loads], the handler
    command started by [run_command]) are parameters of the model, so every
    theorem holds for whatever they do, and a theorem that needs more of
    them says so in a hypothesis. *)

From Stdlib Require Import ZArith Ascii String List Lia Bool.
From stdpp Require Import base option gmap strings pretty.
Import ListNotations.

Local Open Scope Z_scope.

(** ** Python string operations on ASCII text *)

Module PyStr.

(** [c.lower()] on one ASCII character: [A..Z] move to [a..z]. *)
Definition lower_ascii (c : ascii) : ascii :=
  let n := nat_of_ascii c in
  if ((65 <=? n) && (n <=? 90))%nat then ascii_of_nat (n + 32) else c.

(** [s.lower()] *)
Fixpoint lower (s : string) : string :=
  match s with
  | EmptyString => EmptyString
  | String c t => String (lower_ascii c) (lower t)
  end.

(** [needle in hay] on strings: [needle] occurs as a contiguous substring. *)
Fixpoint str_in (needle hay : string) : bool :=
  String.prefix needle hay ||
  match hay with
  | EmptyString => false
  | String _ t => str_in needle t
  end.

(** [sep.join(parts)] *)
Fixpoint join (sep : string) (parts : list string) : string :=
  match parts with
  | [] => ""
  | [p] => p
  | p :: ps => p +:+ sep +:+ join sep ps
  end.

(** Truth value of a string: [bool(s)], false only for the empty string. *)
Definition truthy (s : string) : bool :=
  match s with EmptyString => false | _ => true end.

(** Truth value of an [Optional[str]]: [None] and [""] are false. *)
Definition truthy_opt (o : option string) : bool :=
  match o with None => false | Some s => truthy s end.

(** The characters [str.strip()] removes from ASCII text:
    tab, line feed, vertical tab, form feed, carriage return, the four
    separators 0x1c..0x1f and the space. *)
Definition is_space (c : ascii) : bool :=
  let n := nat_of_ascii c in
  (((9 <=? n) && (n <=? 13)) || ((28 <=? n) && (n <=? 32)))%nat.

Fixpoint lstrip (s : string) : string :=
  match s with
  | EmptyString => EmptyString
  | String c t => if is_space c then lstrip t else s
  end.

(** [rstrip] drops the trailing run of white space: a character is kept when
    it is not white space or when something is kept after it. *)
Fixpoint rstrip (s : string) : string :=
  match s with
  | EmptyString => EmptyString
  | String c t =>
      match rstrip t with
      | EmptyString => if is_space c then EmptyString else String c EmptyString
      | t' => String c t'
      end
  end.

(** [s.strip()] *)
Definition strip (s : string) : string := rstrip (lstrip s).

End PyStr.

(** ** The monitor: [scripts/jules_monitor.py] *)

Module Monitor.
Import PyStr.

(** Job statuses that are considered terminal/actionable. *)
Definition ACTIONABLE_STATUSES : list string :=
  ["COMPLETED"; "FAILED"; "ERROR"; "CANCELLED"].

(** [status in ACTIONABLE_STATUSES] for an [Optional[str]] status. *)
Definition in_actionable (status : option string) : bool :=
  match status with
  | None => false
  | Some s => bool_decide (s ∈ ACTIONABLE_STATUSES)
  end.

(** A message of the job's conversation: the JSON object the API returns,
    seen through the keys the monitor reads.  [None] is an absent key;
    [msg_rest] holds the members the monitor never looks at. *)
Record Message := mkMessage {
  msg_role : option string;
  msg_tags : option (list string);
  msg_content : option string;
  msg_rest : list (string * string)
}.

(** [bool(message)]: a dict is false only when it has no key at all. *)
Definition message_truthy (m : Message) : bool :=
  match msg_role m, msg_tags m, msg_content m, msg_rest m with
  | None, None, None, [] => false
  | _, _, _, _ => true
  end.

(** [is_question_message]:
<<
    role = str(message.get("role", "")).lower()
    tags = " ".join(str(tag).lower() for tag in message.get("tags", []))
    text = str(message.get("content", "")).lower()
    return "question" in tags or "needs_input" in tags
           or ("?" in text and role == "assistant")
>> *)
Definition is_question_message (message : Message) : bool :=
  let role := lower (default "" (msg_role message)) in
  let tags := join " " (map lower (default [] (msg_tags message))) in
  let text := lower (default "" (msg_content message)) in
  str_in "question" tags || str_in "needs_input" tags ||
  (str_in "?" text && bool_decide (role = "assistant")).

(** [messages_actionable]: the first message of the batch that is a
    question, [None] when there is none. *)
Fixpoint messages_actionable (messages : list Message) : option Message :=
  match messages with
  | [] => None
  | message :: rest =>
      if is_question_message message then Some message
      else messages_actionable rest
  end.

(** Tracking state for a single job (the [JobState] dataclass). *)
Record JobState := mkJobState {
  cursor : option string;
  last_status : option string;
  last_activity : option string
}.

(** [JobState()]: every field at its default [None]. *)
Definition JobState_default : JobState := mkJobState None None None.

(** An entry of the job list: [job.get("job_id")] and the other members. *)
Record Job := mkJob {
  job_id : option string;
  job_rest : list (string * string)
}.

(** A decoded JSON object of the remote API, seen through what the monitor
    reads of it.  [p_status] and [p_next_cursor] are what [.get("status")]
    and [.get("next_cursor")] return: the string, or [None] for an absent
    key or [null].  [p_messages] is what [.get("messages", [])] returns:
    [Some l] for a list of message objects, which is the empty list when the
    key is absent, and [None] for [null], which no [for] loop can go over.
    [p_rest] is everything else in the object. *)
Record Payload := mkPayload {
  p_status : option string;
  p_next_cursor : option string;
  p_messages : option (list Message);
  p_rest : list (string * string)
}.

(** The literal [{}] that replaces the messages payload after a failed
    fetch: no status, no token, and [[]] for the messages. *)
Definition empty_payload : Payload := mkPayload None None (Some []) [].

(** The records [append_jsonl] writes to the event log.  Each constructor is
    one of the dict literals of the source, with its keys as arguments. *)
Inductive Event :=
| ErrorEvent (job : option string) (observed_at message : string)
| StatusEvent (event job status observed_at : string) (payload : Payload)
| QuestionEvent (job observed_at : string) (message : Message)
| StuckEvent (job observed_at : string) (stale_since : option string).

(** The value under the key ["event"]. *)
Definition event_kind (e : Event) : string :=
  match e with
  | ErrorEvent _ _ _ => "error"
  | StatusEvent k _ _ _ _ => k
  | QuestionEvent _ _ _ => "question"
  | StuckEvent _ _ _ => "stuck"
  end.

(** The value under the key ["job_id"]. *)
Definition event_job (e : Event) : option string :=
  match e with
  | ErrorEvent j _ _ => j
  | StatusEvent _ j _ _ _ => Some j
  | QuestionEvent j _ _ => Some j
  | StuckEvent j _ _ => Some j
  end.

(** The value under the key ["observed_at"]. *)
Definition event_observed_at (e : Event) : string :=
  match e with
  | ErrorEvent _ t _ => t
  | StatusEvent _ _ _ t _ => t
  | QuestionEvent _ t _ => t
  | StuckEvent _ t _ => t
  end.

(** What [datetime.fromisoformat] returns: an instant, in microseconds since
    the epoch, that either carries a UTC offset or is naive. *)
Inductive parsed_datetime :=
| Aware (us : Z)
| Naive (us : Z).

(** The request [build_request] makes: the URL and, when a token is given,
    the [Authorization] header. *)
Record Request := mkRequest {
  req_url : string;
  req_authorization : option string
}.

(** What the [try] block of [fetch_json] does with a request
    ([urlopen], [read], [decode], [json.loads]): it returns a decoded
    object; [urlopen] raises [HTTPError] with this code and body; an
    exception that is a [RuntimeError] is raised ([json.loads] raises
    [RecursionError], a subclass, on a body nested too deep); or any other
    exception is raised ([URLError], a timeout, [JSONDecodeError] on a body
    that is not JSON).  The last case also stands for an answer that is JSON
    but no object: the [.get] that follows the fetch raises
    [AttributeError] on it before anything else is done. *)
Inductive Response :=
| Ok200 (body : Payload)
| HTTPError (code : Z) (body : string)
| RuntimeErrorRaised (message : string)
| OtherFailure (what : string).

(** The library functions and the outside world the monitor runs against.
    [clock n] and [urlopen n] are what the wall clock and the remote API
    answer at the [n]-th effect of the process.  [total_seconds_ge us
    seconds] is what [delta.total_seconds() >= seconds] answers for a
    [timedelta] of [us] microseconds and an integer [seconds]:
    [total_seconds] divides by [10**6] in floating point, so the answer is
    that of the nearest float, not always that of the exact quotient. *)
Class Runtime := {
  urljoin : string -> string -> string;
  quote : string -> string;
  isoformat : Z -> string;
  fromisoformat : string -> option parsed_datetime;
  total_seconds_ge : Z -> Z -> bool;
  clock : nat -> Z;
  urlopen : nat -> Request -> Response
}.

(** Exceptions that travel through [monitor_once]. *)
Inductive Exn :=
| RuntimeError (msg : string)
| TypeError (msg : string)
| OtherException (msg : string).

(** [str(exc)] *)
Definition str_exn (e : Exn) : string :=
  match e with
  | RuntimeError m => m
  | TypeError m => m
  | OtherException m => m
  end.

(** Everything a cycle reads and writes: the [state] dictionary, the lines
    appended to the event log, the URLs requested so far, and the count of
    effects performed (the index into [clock] and [urlopen]). *)
Record Sys := mkSys {
  state : gmap string JobState;
  events : list Event;
  requests : list Request;
  tick : nat
}.

(** *** A state and exception monad over [Sys] *)

Inductive Result (A : Type) :=
| Val (a : A)
| Raised (e : Exn).
Arguments Val {A} a.
Arguments Raised {A} e.

Definition M (A : Type) : Type := Sys -> Result A * Sys.

Definition ret {A} (a : A) : M A := fun s => (Val a, s).

Definition raise {A} (e : Exn) : M A := fun s => (Raised e, s).

Definition bind {A B} (m : M A) (k : A -> M B) : M B :=
  fun s =>
    match m s with
    | (Val a, s') => k a s'
    | (Raised e, s') => (Raised e, s')
    end.

Notation "'let*' x ':=' m 'in' k" := (bind m (fun x => k))
  (at level 10, x name, m at level 100, k at level 200).
Notation "m ';;' k" := (bind m (fun _ => k))
  (at level 100, k at level 200, right associativity).

(** [try: m except RuntimeError as exc: ...]: a [RuntimeError] is handed to
    the caller as [inr (str exc)]; every other exception keeps travelling. *)
Definition try_RuntimeError {A} (m : M A) : M (A + string) :=
  fun s =>
    match m s with
    | (Val a, s') => (Val (inl a), s')
    | (Raised (RuntimeError msg), s') => (Val (inr msg), s')
    | (Raised e, s') => (Raised e, s')
    end.

Section WithRuntime.
Context {rt : Runtime}.

(** One reading of the wall clock. *)
Definition datetime_now : M Z :=
  fun s => (Val (clock (tick s)),
            mkSys (state s) (events s) (requests s) (S (tick s))).

(** [utc_now]: current UTC timestamp in ISO 8601 format. *)
Definition utc_now : M string :=
  let* t := datetime_now in ret (isoformat t).

(** [append_jsonl(events_path, payload)] *)
Definition append_jsonl (payload : Event) : M unit :=
  fun s => (Val tt, mkSys (state s) (events s ++ [payload]) (requests s) (tick s)).

(** [build_request]: the [Authorization] header only for a non-empty token. *)
Definition build_request (url : string) (token : option string) : Request :=
  mkRequest url
    (if truthy_opt token then Some ("Bearer " +:+ default "" token) else None).

(** [fetch_json]: an [HTTPError] becomes
    [RuntimeError(f"HTTP {exc.code} for {url}: {body}")]; no other exception
    is caught here, so a [RuntimeError] raised inside the [try] block leaves
    as it is, and so does every other exception. *)
Definition fetch_json (url : string) (token : option string) : M Payload :=
  fun s =>
    let request := build_request url token in
    let s' := mkSys (state s) (events s) (requests s ++ [request]) (S (tick s)) in
    match urlopen (tick s) request with
    | Ok200 payload => (Val payload, s')
    | HTTPError code body =>
        (Raised (RuntimeError
                   ("HTTP " +:+ pretty code +:+ " for " +:+ url +:+ ": " +:+ body)), s')
    | RuntimeErrorRaised message => (Raised (RuntimeError message), s')
    | OtherFailure what => (Raised (OtherException what), s')
    end.

(** [job_status_url] *)
Definition job_status_url (api_base job : string) : string :=
  urljoin (api_base +:+ "/") ("jobs/" +:+ job).

(** [job_messages_url]: the cursor is appended only when it is non-empty. *)
Definition job_messages_url (api_base job : string) (cur : option string) : string :=
  let url := urljoin (api_base +:+ "/") ("jobs/" +:+ job +:+ "/messages") in
  if truthy_opt cur then url +:+ "?cursor=" +:+ quote (default "" cur) else url.

(** [should_emit_stuck]: [False] for an unset or empty [last_activity] and
    for one [fromisoformat] rejects with [ValueError]; otherwise the clock is
    read and the age, a [timedelta] of [now - t] microseconds, is compared
    with the threshold by [delta.total_seconds() >= threshold_minutes * 60].
    Subtracting a naive datetime from the aware [now] raises [TypeError],
    which is not caught. *)
Definition should_emit_stuck (last : option string) (threshold_minutes : Z) : M bool :=
  if negb (truthy_opt last) then ret false
  else
    match fromisoformat (default "" last) with
    | None => ret false
    | Some parsed =>
        let* now := datetime_now in
        match parsed with
        | Naive _ =>
            raise (TypeError "can't subtract offset-naive and offset-aware datetimes")
        | Aware t => ret (total_seconds_ge (now - t) (threshold_minutes * 60))
        end
    end.

(** The [JobState] object stored under [job] ([JobState()] when absent). *)
Definition job_state_of (st : gmap string JobState) (job : string) : JobState :=
  default JobState_default (st !! job).

(** [state.setdefault(job_id, JobState())] *)
Definition setdefault (job : string) : M unit :=
  fun s => (Val tt,
            mkSys (<[job := job_state_of (state s) job]> (state s))
                  (events s) (requests s) (tick s)).

(** Reading the object [job_state] refers to. *)
Definition read_job_state (job : string) : M JobState :=
  fun s => (Val (job_state_of (state s) job), s).

(** Assigning to fields of the object [job_state] refers to, which is the
    one stored in the dictionary. *)
Definition write_job_state (job : string) (f : JobState -> JobState) : M unit :=
  fun s => (Val tt,
            mkSys (<[job := f (job_state_of (state s) job)]> (state s))
                  (events s) (requests s) (tick s)).

Definition set_cursor (c : option string) (js : JobState) : JobState :=
  mkJobState c (last_status js) (last_activity js).
Definition set_last_status (v : option string) (js : JobState) : JobState :=
  mkJobState (cursor js) v (last_activity js).
Definition set_last_activity (v : option string) (js : JobState) : JobState :=
  mkJobState (cursor js) (last_status js) v.

(** [status in ACTIONABLE_STATUSES], handing back the status string. *)
Definition terminal_status (status : option string) : option string :=
  match status with
  | Some s => if in_actionable (Some s) then Some s else None
  | None => None
  end.

(** The last statement of the loop body, "Check for stuck state": the event
    carries the [last_activity] that was tested, and the timer is reset
    after it is written. *)
Definition stuck_check (stuck_minutes : Z) (job : string) : M unit :=
  let* job_state := read_job_state job in
  let* stuck := should_emit_stuck (last_activity job_state) stuck_minutes in
  if stuck then
    let* now := utc_now in
    append_jsonl (StuckEvent job now (last_activity job_state));;
    (* Reset activity timer to avoid repeated stuck events *)
    let* now := utc_now in
    write_job_state job (set_last_activity (Some now))
  else ret tt.

(** "Track status changes": a status that is set, not empty and not the one
    stored replaces [last_status], and [last_activity] becomes the time of
    the change. *)
Definition track_status (job : string) (status : option string) : M unit :=
  let* job_state := read_job_state job in
  if truthy_opt status && negb (bool_decide (status = last_status job_state))
  then
    write_job_state job (set_last_status status);;
    let* now := utc_now in
    write_job_state job (set_last_activity (Some now))
  else ret tt.

(** "Check for terminal status", taken branch: one event, [completed] for
    [COMPLETED] and [error] for the other three, with the status payload. *)
Definition emit_terminal (job status : string) (status_payload : Payload) : M unit :=
  let* now := utc_now in
  append_jsonl
    (StatusEvent (if bool_decide (status = "COMPLETED") then "completed" else "error")
                 job status now status_payload).

(** The loop body from [cursor = messages_payload.get("next_cursor")] on,
    for the messages payload at hand.  The batch is classified first:
    [messages_actionable] raises [TypeError] on a [messages] that is [null],
    before anything is written.  Then the cursor follows a non-empty
    [next_cursor]; the first question of the batch is emitted and ends the
    body; otherwise the stuck check runs. *)
Definition handle_batch (stuck_minutes : Z) (job : string)
    (messages_payload : Payload) : M unit :=
  let cursor := p_next_cursor messages_payload in
  match p_messages messages_payload with
  | None => raise (TypeError "'NoneType' object is not iterable")
  | Some messages =>
      let actionable_message := messages_actionable messages in
      (* Update cursor for next fetch *)
      (if truthy_opt cursor
       then write_job_state job (set_cursor cursor)
       else ret tt);;
      (* Emit question event if found *)
      match actionable_message with
      | Some message =>
          if message_truthy message then
            let* now := utc_now in
            append_jsonl (QuestionEvent job now message);;
            let* now := utc_now in
            write_job_state job (set_last_activity (Some now))
          else stuck_check stuck_minutes job
      | None => stuck_check stuck_minutes job
      end
  end.

(** "Fetch messages for question detection": a [RuntimeError] of the fetch
    leaves the empty payload [{}]; any other exception of the fetch leaves
    the loop. *)
Definition check_messages (api_base : string) (token : option string)
    (stuck_minutes : Z) (job : string) : M unit :=
  let* job_state := read_job_state job in
  let* fetched :=
    try_RuntimeError
      (fetch_json (job_messages_url api_base job (cursor job_state)) token) in
  handle_batch stuck_minutes job
    match fetched with inl p => p | inr _ => empty_payload end.

(** The loop body from "Check for terminal status" on. *)
Definition after_status (api_base : string) (token : option string)
    (stuck_minutes : Z) (job : string) (status_payload : Payload) : M unit :=
  match terminal_status (p_status status_payload) with
  | Some status => emit_terminal job status status_payload
  | None => check_messages api_base token stuck_minutes job
  end.

(** The body of the [for job in jobs] loop of [monitor_once]; a [continue]
    is the end of the body. *)
Definition process_job (api_base : string) (token : option string)
    (stuck_minutes : Z) (job : Job) : M unit :=
  if negb (truthy_opt (job_id job)) then ret tt
  else
    let job_id := default "" (job_id job) in
    setdefault job_id;;
    (* Fetch current job status *)
    let* fetched :=
      try_RuntimeError (fetch_json (job_status_url api_base job_id) token) in
    match fetched with
    | inr exc =>
        (* Emit error event for API failures *)
        let* now := utc_now in
        append_jsonl (ErrorEvent (Some job_id) now exc)
    | inl status_payload =>
        track_status job_id (p_status status_payload);;
        after_status api_base token stuck_minutes job_id status_payload
    end.

(** [monitor_once]: the loop over the job list; an exception that leaves the
    body ends the loop. *)
Fixpoint monitor_once (jobs : list Job) (api_base : string)
    (token : option string) (stuck_minutes : Z) : M unit :=
  match jobs with
  | [] => ret tt
  | job :: rest =>
      process_job api_base token stuck_minutes job;;
      monitor_once rest api_base token stuck_minutes
  end.

(** One turn of the [while True] loop of [main], up to the write of the
    state file: [monitor_once] runs when the job list is not empty, and any
    exception is logged as an error event without a job. *)
Definition main_cycle (api_base : string) (token : option string)
    (stuck_minutes : Z) (jobs : list Job) (s : Sys) : Sys :=
  match jobs with
  | [] => s
  | _ =>
      match monitor_once jobs api_base token stuck_minutes s with
      | (Val _, s') => s'
      | (Raised exc, s') =>
          snd ((let* now := utc_now in
                append_jsonl
                  (ErrorEvent None now ("Monitor error: " +:+ str_exn exc))) s')
      end
  end.

(** Successive turns of the main loop, one job list per turn (the list is
    loaded again at every turn). *)
Fixpoint main_loop (api_base : string) (token : option string)
    (stuck_minutes : Z) (turns : list (list Job)) (s : Sys) : Sys :=
  match turns with
  | [] => s
  | jobs :: later =>
      main_loop api_base token stuck_minutes later
        (main_cycle api_base token stuck_minutes jobs s)
  end.

(** The events a computation appended: the log after it, less the log
    before it. *)
Definition appended (before after : Sys) : list Event :=
  drop (length (events before)) (events after).

(** The system once [setdefault] has run and the status request of [job]
    has been sent. *)
Definition status_requested (api_base : string) (token : option string)
    (job : string) (s : Sys) : Sys :=
  mkSys (<[job := job_state_of (state s) job]> (state s)) (events s)
        (requests s ++ [build_request (job_status_url api_base job) token])
        (S (tick s)).

(** The system once the cursor has followed the payload's [next_cursor]. *)
Definition cursor_advanced (job : string) (messages_payload : Payload) (s : Sys) : Sys :=
  if truthy_opt (p_next_cursor messages_payload)
  then mkSys (<[job := set_cursor (p_next_cursor messages_payload)
                         (job_state_of (state s) job)]> (state s))
             (events s) (requests s) (tick s)
  else s.

(** The request for the messages of [job] from its stored cursor. *)
Definition messages_request (api_base : string) (token : option string)
    (job : string) (s : Sys) : Request :=
  build_request
    (job_messages_url api_base job (cursor (job_state_of (state s) job))) token.

(** The system once that request has been sent. *)
Definition messages_requested (api_base : string) (token : option string)
    (job : string) (s : Sys) : Sys :=
  mkSys (state s) (events s)
        (requests s ++ [messages_request api_base token job s]) (S (tick s)).

End WithRuntime.

End Monitor.

(** ** The event watcher: [jules-mpc-python/scripts/jules_event_watcher.py] *)

Module Watcher.
Import PyStr.

Local Open Scope nat_scope.

(** What [json.loads(line)] followed by [event.get] does with a line: the
    text is not JSON ([JSONDecodeError], caught); it is a JSON object; or it
    is JSON of another kind (a number, a list, [null], ...), on which
    [event.get] raises [AttributeError], or it is nested so deep that
    [json.loads] raises [RecursionError]: nothing catches either. *)
Inductive Loaded (Obj : Type) :=
| JSONDecodeError
| Dict (event : Obj)
| NotDict.
Arguments JSONDecodeError {Obj}.
Arguments Dict {Obj} event.
Arguments NotDict {Obj}.

(** The events file as [watch] finds it at one turn of its loop:
    [os.path.exists] is false; [open] raises [IOError]; the file is read to
    its end and has this content; the file is opened and, once the lines of
    [read] have been had of it, a read raises [IOError]; or, once the lines
    of [read] have been had of it, the bytes that follow are no UTF-8 and
    the read raises [UnicodeDecodeError], a [ValueError] that nothing
    catches. *)
Inductive LogFile :=
| Absent
| Unreadable
| Present (content : string)
| Interrupted (read : string)
| Undecodable (read : string).

(** What a call of [run_command] comes to: [subprocess.run] returns and the
    exit code of the handler is handed back; or [subprocess.run] raises
    [OSError], as it does when no process can be started or when the
    environment that is to hold [JULES_EVENT] is too large. *)
Inductive Launch :=
| Exited (code : Z)
| OSError.

Definition is_LF (c : ascii) : bool := bool_decide (c = "010"%char).
Definition is_CR (c : ascii) : bool := bool_decide (c = "013"%char).

(** The lines [for line in handle] yields, each with its terminator, for a
    file opened in text mode with universal newlines: a line ends at a line
    feed, at a carriage return, or at the pair of them; the last line may
    have no terminator. *)
Fixpoint lines (s : string) : list string :=
  match s with
  | EmptyString => []
  | String c t =>
      if is_LF c then String c "" :: lines t
      else if is_CR c then
        match t with
        | String c' t' =>
            if is_LF c' then String c (String c' "") :: lines t'
            else String c "" :: lines t
        | EmptyString => [String c ""]
        end
      else
        match lines t with
        | [] => [String c ""]
        | l :: ls => String c l :: ls
        end
  end.

(** [handle.seek(offset)]: what is left to read from byte [offset] on. *)
Fixpoint seek (offset : nat) (s : string) : string :=
  match offset, s with
  | O, _ => s
  | S n, String _ t => seek n t
  | S _, EmptyString => EmptyString
  end.

(** One call of [run_command]: the line it was made for occupies the bytes
    from [first_byte] up to [end_byte] of the file, [payload] is the event
    passed in [JULES_EVENT], and [launch] is what the call came to. *)
Record Delivery (Obj : Type) := mkDelivery {
  first_byte : nat;
  end_byte : nat;
  payload : Obj;
  launch : Launch
}.
Arguments mkDelivery {Obj}.
Arguments first_byte {Obj}.
Arguments end_byte {Obj}.
Arguments payload {Obj}.
Arguments launch {Obj}.

(** How a pass over the file ends: the loop reaches the end of the file and
    [handle.tell()] is taken; an exception that nothing catches ends the
    process; or an [IOError] leaves the [try] block and is caught, the
    assignment to [offset] not being reached.  Each comes with the calls of
    [run_command] the pass made. *)
Inductive Pass (Obj : Type) :=
| Finished (delivered : list (Delivery Obj)) (tell : nat)
| Died (delivered : list (Delivery Obj))
| Abandoned (delivered : list (Delivery Obj)).
Arguments Finished {Obj}.
Arguments Died {Obj}.
Arguments Abandoned {Obj}.

(** The process [watch] runs in: its variable [offset], the state file
    (absent, or holding an offset), the calls of [run_command] so far, and
    whether the process is still running. *)
Record Proc (Obj : Type) := mkProc {
  offset : nat;
  state_file : option nat;
  handled : list (Delivery Obj);
  alive : bool
}.
Arguments mkProc {Obj}.
Arguments offset {Obj}.
Arguments state_file {Obj}.
Arguments handled {Obj}.
Arguments alive {Obj}.

(** What happens to the watcher: one turn of its loop against the file as it
    is then, or the process is started again. *)
Inductive Step :=
| Poll (log : LogFile)
| Restart.

(** [load_state] followed by [int(state.get("offset", 0))]. *)
Definition load_state (file : option nat) : nat := default 0 file.

Section Tail.
Context {Obj : Type} (json_loads : string -> Loaded Obj).

(** [run_command calls event] is what the call of [run_command] for [event]
    comes to when [calls] calls were made before it. *)
Context (run_command : nat -> Obj -> Launch).

(** The body of [for line in handle], over the lines still to read; [calls]
    is the number of calls of [run_command] made so far and [pos] the byte
    at which the next line starts.  Blank lines and lines that do not parse
    are passed over; [run_command] is called for each object, its exit code
    is only printed, and an [OSError] it raises leaves the loop. *)
Fixpoint read_lines (calls pos : nat) (ls : list string) : Pass Obj :=
  match ls with
  | [] => Finished [] pos
  | raw :: rest =>
      let next := pos + String.length raw in
      let line := strip raw in
      if negb (truthy line) then read_lines calls next rest
      else
        match json_loads line with
        | JSONDecodeError => read_lines calls next rest
        | NotDict => Died []
        | Dict event =>
            let d := mkDelivery pos next event (run_command calls event) in
            match run_command calls event with
            | OSError => Abandoned [d]
            | Exited _ =>
                match read_lines (S calls) next rest with
                | Finished ds tell => Finished (d :: ds) tell
                | Died ds => Died (d :: ds)
                | Abandoned ds => Abandoned (d :: ds)
                end
            end
        end
  end.

(** Opening the file, seeking to [offset] and reading to the end. *)
Definition read_from (calls offset : nat) (content : string) : Pass Obj :=
  read_lines calls offset (lines (seek offset content)).

(** One turn of the [while True] loop of [watch]. *)
Definition watch_cycle (log : LogFile) (p : Proc Obj) : Proc Obj :=
  match log with
  | Absent =>
      (* Wait for events file to exist *)
      p
  | Unreadable =>
      (* the IOError is reported; the state is persisted as it is *)
      mkProc (offset p) (Some (offset p)) (handled p) (alive p)
  | Present content =>
      match read_from (length (handled p)) (offset p) content with
      | Finished ds tell =>
          (* Update offset to end of file, persist state *)
          mkProc tell (Some tell) (handled p ++ ds) (alive p)
      | Died ds =>
          mkProc (offset p) (state_file p) (handled p ++ ds) false
      | Abandoned ds =>
          (* the OSError is reported; the state is persisted as it is *)
          mkProc (offset p) (Some (offset p)) (handled p ++ ds) (alive p)
      end
  | Interrupted read =>
      match read_from (length (handled p)) (offset p) read with
      | Finished ds _ | Abandoned ds =>
          (* the IOError is reported; the state is persisted as it is *)
          mkProc (offset p) (Some (offset p)) (handled p ++ ds) (alive p)
      | Died ds =>
          mkProc (offset p) (state_file p) (handled p ++ ds) false
      end
  | Undecodable read =>
      match read_from (length (handled p)) (offset p) read with
      | Finished ds _ | Died ds =>
          (* the UnicodeDecodeError ends the process *)
          mkProc (offset p) (state_file p) (handled p ++ ds) false
      | Abandoned ds =>
          mkProc (offset p) (Some (offset p)) (handled p ++ ds) (alive p)
      end
  end.

(** Starting [watch]: the offset comes from the state file. *)
Definition start (p : Proc Obj) : Proc Obj :=
  mkProc (load_state (state_file p)) (state_file p) (handled p) true.

(** A process that has ended does nothing until it is started again. *)
Definition step (p : Proc Obj) (a : Step) : Proc Obj :=
  match a with
  | Restart => start p
  | Poll log => if alive p then watch_cycle log p else p
  end.

(** A history of the watcher. *)
Definition run (steps : list Step) (p : Proc Obj) : Proc Obj :=
  fold_left step steps p.

(** [watch]: the offset is loaded from the state file, then the loop turns;
    [turns] is the events file as each turn finds it.  The loop has no exit:
    a run of [watch] is cut where the process is stopped. *)
Definition watch (turns : list LogFile) (p : Proc Obj) : Proc Obj :=
  run (map Poll turns) (start p).

End Tail.

(** The process of a first start of [watch], with the given state file and
    nothing handled. *)
Definition boot {Obj : Type} (file : option nat) : Proc Obj :=
  mkProc (load_state file) file [] true.

End Watcher.

(** ** The head and the tail of the monitor's [main]: settings and the
    state file *)

Module MonitorMain.
Import PyStr Monitor.

Local Open Scope Z_scope.

(** A JSON object of the state file, as [main] reads it: each member is a
    string or [null]. *)
Definition dict_get (payload : gmap string (option string)) (key : string) : option string :=
  mjoin (payload !! key).

(** "Load existing state": one [JobState] per entry of the state file, each
    field read with [payload.get]; [load_json] hands back the empty
    dictionary when the file does not exist. *)
Definition load_existing_state (file : option (gmap string (gmap string (option string))))
    : gmap string JobState :=
  (fun payload =>
     mkJobState (dict_get payload "cursor") (dict_get payload "last_status")
                (dict_get payload "last_activity"))
  <$> default ∅ file.

(** "Persist state": the dictionary [save_json] writes after every turn. *)
Definition persist_state (st : gmap string JobState)
    : gmap string (gmap string (option string)) :=
  (fun job_state =>
     <["cursor" := cursor job_state]>
       (<["last_status" := last_status job_state]>
          (<["last_activity" := last_activity job_state]> ∅)))
  <$> st.


(** *** Settings: [parse_args] and the head of [main] *)

Definition DEFAULT_API_BASE : string := "https://jules.googleapis.com/v1".
Definition DEFAULT_POLL_SECONDS : Z := 45.
Definition DEFAULT_STUCK_MINUTES : Z := 20.
Definition DEFAULT_STATE_PATH : string := ".zai_monitor_state.json".

(** The options given on the command line; [None] is an option left out. *)
Record CommandLine := mkCommandLine {
  opt_jobs : option string;
  opt_events : option string;
  opt_state : option string;
  opt_poll : option Z;
  opt_stuck_minutes : option Z;
  opt_api_base : option string
}.

(** The namespace [parse_args] returns. *)
Record Args := mkArgs {
  args_jobs : option string;
  args_events : option string;
  args_state : string;
  args_poll : Z;
  args_stuck_minutes : Z;
  args_api_base : string
}.

(** [parse_args]: [--jobs] and [--events] have no default; the default of
    [--api-base] is [os.getenv("JULES_API_BASE", DEFAULT_API_BASE)]. *)
Definition parse_args (JULES_API_BASE : option string) (argv : CommandLine) : Args :=
  mkArgs (opt_jobs argv) (opt_events argv)
         (default DEFAULT_STATE_PATH (opt_state argv))
         (default DEFAULT_POLL_SECONDS (opt_poll argv))
         (default DEFAULT_STUCK_MINUTES (opt_stuck_minutes argv))
         (default (default DEFAULT_API_BASE JULES_API_BASE) (opt_api_base argv)).

(** The configuration file seen through the keys [main] reads, each a
    string or an integer as the key is meant; [None] is an absent key, and
    the empty dictionary of a missing file has them all absent. *)
Record Config := mkConfig {
  cfg_jobs_path : option string;
  cfg_events_path : option string;
  cfg_monitor_state_path : option string;
  cfg_monitor_poll_seconds : option Z;
  cfg_stuck_minutes : option Z;
  cfg_api_base : option string
}.

(** What the main loop runs with. *)
Record Settings := mkSettings {
  jobs_path : string;
  events_path : string;
  state_path : string;
  poll_seconds : Z;
  api_base : string;
  stuck_minutes : Z
}.

(** [a or b] on an integer [a]: zero is false. *)
Definition or_int (a b : Z) : Z := if bool_decide (a = 0) then b else a.

(** [a or b] on a string [a]: the empty string is false. *)
Definition or_str (a b : string) : string := if truthy a then a else b.

(** "Resolve paths from args or config", and the test that follows it:
    [None] is the [return 1] of a missing [jobs_path] or [events_path]. *)
Definition resolve (args : Args) (config : Config) : option Settings :=
  let jobs_path :=
    if truthy_opt (args_jobs args) then args_jobs args else cfg_jobs_path config in
  let events_path :=
    if truthy_opt (args_events args) then args_events args else cfg_events_path config in
  let state_path :=
    or_str (args_state args) (default DEFAULT_STATE_PATH (cfg_monitor_state_path config)) in
  let poll_seconds :=
    or_int (args_poll args) (default DEFAULT_POLL_SECONDS (cfg_monitor_poll_seconds config)) in
  let api_base :=
    or_str (args_api_base args) (default DEFAULT_API_BASE (cfg_api_base config)) in
  let stuck_minutes :=
    or_int (args_stuck_minutes args)
           (default DEFAULT_STUCK_MINUTES (cfg_stuck_minutes config)) in
  if negb (truthy_opt jobs_path) || negb (truthy_opt events_path) then None
  else Some (mkSettings (default "" jobs_path) (default "" events_path) state_path
                        poll_seconds api_base stuck_minutes).

End MonitorMain.

(** ** The event handler: [jules-mpc-python/scripts/event_handler.py] *)

Module Handler.
Import PyStr.

(** The four handlers [main] dispatches to, and the fall-through that
    prints the unhandled event. *)
Inductive Route :=
| handle_question
| handle_completed
| handle_error
| handle_stuck
| unhandled.

(** The chain of tests of [main] on [event.get("event")]. *)
Definition route (event_type : option string) : Route :=
  if bool_decide (event_type = Some "question") then handle_question
  else if bool_decide (event_type = Some "completed") then handle_completed
  else if bool_decide (event_type = Some "error") then handle_error
  else if bool_decide (event_type = Some "stuck") then handle_stuck
  else unhandled.

(** The value of [mcp_command] in the configuration: absent, a list, or a
    single string. *)
Inductive McpSetting :=
| mcp_absent
| mcp_list (command : list string)
| mcp_string (command : string).

(** [config.get("mcp_command", [])], a string wrapped in a list. *)
Definition mcp_command_of (setting : McpSetting) : list string :=
  match setting with
  | mcp_absent => []
  | mcp_list command => command
  | mcp_string command => [command]
  end.

(** A call [run_mcp(mcp_command, tool, {"job_id": job_id})]. *)
Record ToolCall := mkToolCall {
  tool : string;
  tool_job_id : option string
}.

(** The calls a handler makes: none without an MCP command; with one,
    [handle_completed] fetches the artifacts and [handle_stuck] the job,
    and the other two call nothing. *)
Definition run_handler (r : Route) (job_id : option string)
    (mcp_command : list string) : list ToolCall :=
  match mcp_command with
  | [] => []
  | _ =>
      match r with
      | handle_completed => [mkToolCall "jules_get_artifacts" job_id]
      | handle_stuck => [mkToolCall "jules_get_job" job_id]
      | _ => []
      end
  end.

(** [main] for an event with these values under ["event"] and ["job_id"]. *)
Definition main (event_type job_id : option string) (setting : McpSetting)
    : list ToolCall :=
  run_handler (route event_type) job_id (mcp_command_of setting).

End Handler.

(** ** The MCP server: [mcp-server/jules_mcp_server.py] *)

Module McpServer.
Import PyStr Monitor.

Local Open Scope Z_scope.

(** The [arguments] of a tool call seen through the keys [handle_tool_call]
    tests or prints; [None] is an absent key. *)
Record ToolArguments := mkToolArguments {
  arg_job_id : option string;
  arg_jobs_path : option string;
  arg_repo : option string;
  arg_cursor : option string;
  arg_limit : option Z
}.

(** The JSON body of a request: none, the whole [arguments], or the member
    [arguments.get(key, {})]. *)
Inductive Body :=
| no_body
| all_arguments
| member_or_empty (key : string).

(** What a tool call comes to: one call of [request_json]; the entry for
    [job_id] that [jules_register_job] appends to the file at [jobs_path]
    (its metadata is not looked at here); or a [ValueError]. *)
Inductive Outcome :=
| request_json (url method : string) (payload : Body)
| registered (jobs_path job_id : string)
| ValueError (message : string).

Section WithRuntime.
Context {rt : Runtime}.

(** [url_join] *)
Definition url_join (base path : string) : string := urljoin (base +:+ "/") path.

(** [handle_tool_call], with [API_BASE] as a parameter. *)
Definition handle_tool_call (API_BASE : string) (name : option string)
    (arguments : ToolArguments) : Outcome :=
  if bool_decide (name = Some "jules_create_job") then
    request_json (url_join API_BASE "jobs") "POST" all_arguments
  else if bool_decide (name = Some "jules_register_job") then
    if negb (truthy_opt (arg_jobs_path arguments)) || negb (truthy_opt (arg_job_id arguments))
    then ValueError "jobs_path and job_id are required"
    else registered (default "" (arg_jobs_path arguments))
                    (default "" (arg_job_id arguments))
  else
    if negb (truthy_opt (arg_job_id arguments)) then ValueError "job_id is required"
    else
      let job_id := default "" (arg_job_id arguments) in
      if bool_decide (name = Some "jules_get_job") then
        request_json (url_join API_BASE ("jobs/" +:+ job_id)) "GET" no_body
      else if bool_decide (name = Some "jules_get_messages") then
        let path := "jobs/" +:+ job_id +:+ "/messages" in
        let path :=
          if truthy_opt (arg_cursor arguments)
          then path +:+ "?cursor=" +:+ quote (default "" (arg_cursor arguments))
          else path in
        request_json (url_join API_BASE path) "GET" no_body
      else if bool_decide (name = Some "jules_send_message") then
        request_json (url_join API_BASE ("jobs/" +:+ job_id +:+ "/messages")) "POST"
                     (member_or_empty "message")
      else if bool_decide (name = Some "jules_get_artifacts") then
        request_json (url_join API_BASE ("jobs/" +:+ job_id +:+ "/artifacts")) "GET" no_body
      else if bool_decide (name = Some "jules_request_retry") then
        request_json (url_join API_BASE ("jobs/" +:+ job_id +:+ ":retry")) "POST" no_body
      else if bool_decide (name = Some "jules_merge_pr") then
        request_json (url_join API_BASE ("jobs/" +:+ job_id +:+ ":merge")) "POST"
                     (member_or_empty "payload")
      else if bool_decide (name = Some "jules_cancel_job") then
        request_json (url_join API_BASE ("jobs/" +:+ job_id +:+ ":cancel")) "POST" no_body
      else if bool_decide (name = Some "jules_list_jobs") then
        if negb (truthy_opt (arg_repo arguments)) then ValueError "repo is required"
        else
          request_json
            (url_join API_BASE
               ("jobs?repo=" +:+ quote (default "" (arg_repo arguments)) +:+
                "&limit=" +:+ pretty (default 50 (arg_limit arguments))))
            "GET" no_body
      else ValueError ("Unknown tool: " +:+ default "None" name).

End WithRuntime.

(** The arguments [{"job_id": job_id}] the event handler sends. *)
Definition job_id_only (job_id : option string) : ToolArguments :=
  mkToolArguments job_id None None None None.

End McpServer.

(** ** Concrete runs

    A small remote service, clock and JSON reader on which the models above
    can be evaluated.  Each agrees with the real library on the inputs it is
    used on: [urljoin] of a base ending in a slash and a relative path is
    their concatenation, [quote] keeps letters and digits, the timestamps
    are those [isoformat] prints for the listed instants. *)

Module Demo.
Import PyStr Monitor.

Definition api_base : string := "https://jules.example/v1".

(** Microseconds since the epoch at 2024-01-01T00:00:00 UTC. *)
Definition t0 : Z := 1704067200000000.
Definition minute : Z := 60 * 1000000.

(** The instants the demo clock shows, with their ISO 8601 text. *)
Definition stamps : list (Z * string) :=
  [ (t0,               "2024-01-01T00:00:00+00:00");
    (t0 + 25 * minute, "2024-01-01T00:25:00+00:00");
    (t0 + 26 * minute, "2024-01-01T00:26:00+00:00");
    (t0 + 27 * minute, "2024-01-01T00:27:00+00:00");
    (t0 + 30 * minute, "2024-01-01T00:30:00+00:00");
    (t0 + 31 * minute, "2024-01-01T00:31:00+00:00");
    (t0 + 50 * minute, "2024-01-01T00:50:00+00:00") ].

Definition demo_isoformat (t : Z) : string :=
  match find (fun p => bool_decide (fst p = t)) stamps with
  | Some p => snd p
  | None => ""
  end.

Definition demo_fromisoformat (s : string) : option parsed_datetime :=
  if bool_decide (s = "2024-01-01T00:00:00") then Some (Naive t0)
  else
    match find (fun p => bool_decide (snd p = s)) stamps with
    | Some p => Some (Aware (fst p))
    | None => None
    end.

(** [delta.total_seconds() >= seconds] on the ages and thresholds of the
    demo, all of a few minutes: there the float quotient decides as the
    exact one does. *)
Definition demo_total_seconds_ge (us seconds : Z) : bool := seconds * 1000000 <=? us.

(** The clock reads 00:25 at the first effect, then 00:26, 00:27, 00:30,
    00:31, and 00:50 from then on. *)
Definition demo_clock (n : nat) : Z :=
  match n with
  | 0%nat => t0 + 25 * minute
  | 1%nat => t0 + 26 * minute
  | 2%nat => t0 + 27 * minute
  | 3%nat => t0 + 30 * minute
  | 4%nat => t0 + 31 * minute
  | _ => t0 + 50 * minute
  end.

Definition greeting : Message :=
  mkMessage (Some "user") None (Some "Please fix the login test") [].
Definition which_branch : Message :=
  mkMessage (Some "assistant") None (Some "Which branch should I target?") [].

(** The remote service: [done] has completed, [asking] runs and has a
    question on its second message, [idle] runs and has no message,
    [finishing] runs until the fourth effect and has completed after it,
    [nostatus] answers without a status, [down] answers 503, and the
    connection to [offline] fails. *)
Definition demo_urlopen (n : nat) (request : Request) : Response :=
  let url := req_url request in
  if bool_decide (url = "https://jules.example/v1/jobs/done") then
    Ok200 (mkPayload (Some "COMPLETED") None None [("title", "Fix login")])
  else if bool_decide (url = "https://jules.example/v1/jobs/asking") then
    Ok200 (mkPayload (Some "RUNNING") None None [])
  else if bool_decide (url = "https://jules.example/v1/jobs/asking/messages") then
    Ok200 (mkPayload None (Some "page2") (Some [greeting; which_branch]) [])
  else if bool_decide (url = "https://jules.example/v1/jobs/idle") then
    Ok200 (mkPayload (Some "RUNNING") None None [])
  else if bool_decide (url = "https://jules.example/v1/jobs/idle/messages") then
    Ok200 (mkPayload None None (Some []) [])
  else if bool_decide (url = "https://jules.example/v1/jobs/finishing") then
    Ok200 (mkPayload (Some (if (n <? 4)%nat then "RUNNING" else "COMPLETED")) None None [])
  else if bool_decide (url = "https://jules.example/v1/jobs/finishing/messages") then
    Ok200 (mkPayload None None (Some []) [])
  else if bool_decide (url = "https://jules.example/v1/jobs/nostatus") then
    Ok200 (mkPayload None None None [("name", "jobs/nostatus")])
  else if bool_decide (url = "https://jules.example/v1/jobs/nostatus/messages") then
    Ok200 (mkPayload None None (Some []) [])
  else if bool_decide (url = "https://jules.example/v1/jobs/down") then
    HTTPError 503 "unavailable"
  else if bool_decide (url = "https://jules.example/v1/jobs/offline") then
    OtherFailure "<urlopen error timed out>"
  else HTTPError 404 "".

Definition demo_runtime : Runtime := {|
  urljoin := fun base rel => base +:+ rel;
  quote := fun s => s;
  isoformat := demo_isoformat;
  fromisoformat := demo_fromisoformat;
  total_seconds_ge := demo_total_seconds_ge;
  clock := demo_clock;
  urlopen := demo_urlopen
|}.

Definition job (id : string) : Job := mkJob (Some id) [].

(** A monitor that has tracked nothing yet. *)
Definition fresh : Sys := mkSys ∅ [] [] 0.

(** A monitor that saw [idle] running at midnight. *)
Definition idle_since_midnight : Sys :=
  mkSys {[ "idle" := mkJobState None (Some "RUNNING")
                       (Some "2024-01-01T00:00:00+00:00") ]} [] [] 0.

(** The same, with a timestamp that carries no UTC offset. *)
Definition idle_since_naive_midnight : Sys :=
  mkSys {[ "idle" := mkJobState None (Some "RUNNING")
                       (Some "2024-01-01T00:00:00") ]} [] [] 0.

(** A monitor that saw [nostatus] running at 00:26. *)
Definition nostatus_was_running : Sys :=
  mkSys {[ "nostatus" := mkJobState (Some "page1") (Some "RUNNING")
                           (Some "2024-01-01T00:26:00+00:00") ]} [] [] 0.

End Demo.

Module DemoLog.
Import PyStr Watcher.

Local Open Scope nat_scope.

(** A reader for the JSON texts the examples use: an object whose members
    are strings without escapes is read as its list of members; a run of
    digits is JSON but no object; every other text is rejected, as
    [json.loads] rejects the fragments that occur below. *)
Definition quote_char : ascii := "034"%char.

Definition is_json_space (c : ascii) : bool :=
  bool_decide (c = " "%char) || bool_decide (c = "009"%char) ||
  bool_decide (c = "010"%char) || bool_decide (c = "013"%char).

Fixpoint skip_ws (s : string) : string :=
  match s with
  | String c t => if is_json_space c then skip_ws t else s
  | EmptyString => EmptyString
  end.

(** The characters up to the closing quote, and what follows it. *)
Fixpoint scan_string (s : string) : option (string * string) :=
  match s with
  | EmptyString => None
  | String c t =>
      if bool_decide (c = quote_char) then Some (EmptyString, t)
      else if bool_decide (c = "\"%char) then None
      else '(v, r) ← scan_string t; Some (String c v, r)
  end.

Definition expect (c : ascii) (s : string) : option string :=
  match skip_ws s with
  | String c' t => if bool_decide (c' = c) then Some t else None
  | EmptyString => None
  end.

Definition member (s : string) : option ((string * string) * string) :=
  s ← expect quote_char s;
  '(k, s) ← scan_string s;
  s ← expect ":" s;
  s ← expect quote_char s;
  '(v, s) ← scan_string s;
  Some ((k, v), s).

Fixpoint members (fuel : nat) (s : string) : option (list (string * string)) :=
  match fuel with
  | O => None
  | S fuel =>
      '(kv, s) ← member s;
      match expect "}" s, expect "," s with
      | Some r, _ => if truthy (skip_ws r) then None else Some [kv]
      | None, Some r => kvs ← members fuel r; Some (kv :: kvs)
      | None, None => None
      end
  end.

Fixpoint all_digits (s : string) : bool :=
  match s with
  | EmptyString => true
  | String c t =>
      let n := nat_of_ascii c in (48 <=? n) && (n <=? 57) && all_digits t
  end.

Definition demo_json_loads (line : string) : Loaded (list (string * string)) :=
  match expect "{" line with
  | Some r =>
      match members (String.length line) r with
      | Some kvs => Dict kvs
      | None => JSONDecodeError
      end
  | None =>
      if truthy line && all_digits line then NotDict else JSONDecodeError
  end.

(** A handler that can always be started and exits with 0. *)
Definition demo_run_command (calls : nat) (event : list (string * string)) : Launch :=
  Exited 0%Z.

Definition LF : string := String "010"%char EmptyString.

(** [json.dumps] of an object whose members are plain strings. *)
Definition quoted (s : string) : string :=
  String quote_char s +:+ String quote_char EmptyString.

Definition dumps (obj : list (string * string)) : string :=
  "{" +:+ join ", " (map (fun kv => quoted (fst kv) +:+ ": " +:+ quoted (snd kv)) obj) +:+ "}".

Definition ev (kind job : string) : list (string * string) :=
  [("event", kind); ("job_id", job)].

(** An event log of three full lines and the beginning of a fourth. *)
Definition three_lines : string :=
  dumps (ev "completed" "J1") +:+ LF +:+
  dumps (ev "error" "J2") +:+ LF +:+
  dumps (ev "stuck" "J3") +:+ LF.

Definition fourth_line : string := dumps (ev "question" "J4").

(** The writer was interrupted after 25 bytes of the fourth line... *)
Definition fragment : string := String.substring 0 25 fourth_line.

(** ... and a later append adds the rest of it. *)
Definition completion : string := seek 25 fourth_line +:+ LF.

Definition truncated_log : string := three_lines +:+ fragment.
Definition completed_log : string := truncated_log +:+ completion.

End DemoLog.

(** ** More concrete runs *)

Module DemoMore.
Import PyStr Monitor Watcher Demo DemoLog.






(** An event log with the number [42] on its second line. *)
Definition numbered_log : string :=
  dumps (ev "completed" "J1") +:+ LF +:+
  "42" +:+ LF +:+
  dumps (ev "stuck" "J3") +:+ LF.

End DemoMore.

(** * Vocabulary of the properties *)

Module PyStrSpec.



End PyStrSpec.

Module MonitorSpec.
Import PyStr Monitor.

Local Open Scope Z_scope.

Section Spec.
Context {rt : Runtime}.
Implicit Types (s : Sys) (j : string) (mins : Z).

(** [la] is a reading of the clock taken at or after [s]. *)
Definition stamp_since s (la : option string) : Prop :=
  exists i, (tick s <= i)%nat /\ la = Some (isoformat (clock i)).

(** [la] is the [last_activity] job [j] had in [s], or a later stamp. *)
Definition la_from j s (la : option string) : Prop :=
  la = last_activity (job_state_of (state s) j) \/ stamp_since s la.

(** [c] is the cursor job [j] had in [s], or a non-empty token. *)
Definition cur_from j s (c : option string) : Prop :=
  c = cursor (job_state_of (state s) j) \/ exists tok, c = Some tok /\ truthy tok = true.

(** An event of a pass over [j] that starts in [s]: it names [j], and a
    stuck event reports a [last_activity] that parsed to an instant whose
    age at a clock reading of the pass passed the test against [mins]
    minutes. *)
Definition ev_ok mins j s (e : Event) : Prop :=
  event_job e = Some j /\
  match e with
  | StuckEvent _ obs la =>
      la_from j s la /\ truthy_opt la = true /\
      exists t n, fromisoformat (default "" la) = Some (Aware t) /\
                  (tick s <= n)%nat /\
                  total_seconds_ge (clock n - t) (mins * 60) = true /\
                  obs = isoformat (clock (S n))
  | _ => True
  end.

(** What a pass over job [j] may do to the system: the clock moves on,
    events of the pass are appended, the other jobs keep their state, and
    the timer and the cursor of [j] come from where they may. *)
Definition Eff mins j s s' : Prop :=
  (tick s <= tick s')%nat /\
  (exists new, events s' = (events s ++ new)%list /\ Forall (ev_ok mins j s) new) /\
  (forall j', j' <> j -> job_state_of (state s') j' = job_state_of (state s) j') /\
  la_from j s (last_activity (job_state_of (state s') j)) /\
  cur_from j s (cursor (job_state_of (state s') j)).

(** [s'] is [s] with events appended that all satisfy [Q]. *)
Definition appends_only (Q : Event -> Prop) s s' : Prop :=
  exists new, events s' = (events s ++ new)%list /\ Forall Q new.

(** A stuck event reports a [last_activity] that is set and parsed. *)
Definition stuck_parsed (e : Event) : Prop :=
  match e with
  | StuckEvent _ _ la =>
      truthy_opt la = true /\ exists t, fromisoformat (default "" la) = Some (Aware t)
  | _ => True
  end.

Definition not_stuck (e : Event) : Prop :=
  match e with StuckEvent _ _ _ => False | _ => True end.

(** A stuck event for [j] reports a timestamp the monitor took at or after
    [s]. *)
Definition stuck_stamped j s (e : Event) : Prop :=
  match e with
  | StuckEvent j' _ la => j' = j -> stamp_since s la
  | _ => True
  end.

(** Since [s0]: the clock has moved on, the timer of [j] is the one it had
    in [s0] or a timestamp taken since, and the stuck events appended for
    [j] report timestamps taken since. *)
Definition timer_from j s0 s : Prop :=
  (tick s0 <= tick s)%nat /\
  la_from j s0 (last_activity (job_state_of (state s) j)) /\
  appends_only (stuck_stamped j s0) s0 s.

(** The stuck check fired in [s2]: the stored [last_activity] parsed to an
    instant [t] whose age at the clock reading passed the test against
    [mins] minutes, one event was written and the timer was reset after it. *)
Definition stuck_fired mins j (s2 : Sys) (result : Result unit * Sys) : Prop :=
  let la := last_activity (job_state_of (state s2) j) in
  exists t,
    truthy_opt la = true /\
    fromisoformat (default "" la) = Some (Aware t) /\
    total_seconds_ge (clock (tick s2) - t) (mins * 60) = true /\
    result =
      (Val tt,
       mkSys (<[j := set_last_activity (Some (isoformat (clock (S (S (tick s2))))))
                       (job_state_of (state s2) j)]> (state s2))
             (events s2 ++ [StuckEvent j (isoformat (clock (S (tick s2)))) la])
             (requests s2) (S (S (S (tick s2))))).

(** A stuck event for [j] is observed at least [mins] minutes after [reset]. *)
Definition late_stuck mins j (reset : Z) (e : Event) : Prop :=
  match e with
  | StuckEvent j' obs _ =>
      j' = j -> exists n, obs = isoformat (clock n) /\ reset + mins * 60 * 1000000 <= clock n
  | _ => True
  end.

(** The timer of [j] holds a clock reading that is not before [reset]. *)
Definition timer_since j (reset : Z) s : Prop :=
  exists i, last_activity (job_state_of (state s) j) = Some (isoformat (clock i)) /\
            reset <= clock i.

(** Since [s0]: the clock has moved on, only late stuck events for [j] were
    appended, and the timer of [j] is not before [reset]. *)
Definition debounced mins j (reset : Z) s0 s : Prop :=
  (tick s0 <= tick s)%nat /\ appends_only (late_stuck mins j reset) s0 s /\
  timer_since j reset s.

End Spec.
End MonitorSpec.

Module WatcherSpec.
Import PyStr Watcher.

Local Open Scope nat_scope.

(** The bytes of a list of lines. *)
Fixpoint total_length (ls : list string) : nat :=
  match ls with
  | [] => 0
  | l :: rest => String.length l + total_length rest
  end.

Section Spec.
Context {Obj : Type} (json_loads : string -> Loaded Obj).

(** A call of [run_command] of a pass that started at [pos]: its line
    starts at or after [pos] and is not empty. *)
Definition from_byte (pos : nat) (d : Delivery Obj) : Prop :=
  pos <= first_byte d < end_byte d.

(** The calls of [run_command] of a pass, however it ended. *)
Definition deliveries (r : Pass Obj) : list (Delivery Obj) :=
  match r with Finished ds _ => ds | Died ds => ds | Abandoned ds => ds end.


(** [p'] is [p] some steps later: the offset has not gone back, and what was
    handled since lies at or after the offset of [p]. *)
Definition later (p p' : Proc Obj) : Prop :=
  offset p <= offset p' /\
  exists new, handled p' = handled p ++ new /\ Forall (from_byte (offset p)) new.

(** [raw] is a line the handler is run for, with [event]. *)
Definition valid_line (raw : string) (event : Obj) : Prop :=
  truthy (strip raw) = true /\ json_loads (strip raw) = Dict event.

(** [raw] is a line the reader passes over without running the handler. *)
Definition skipped_line (raw : string) : Prop :=
  truthy (strip raw) = false \/ json_loads (strip raw) = JSONDecodeError.

End Spec.
End WatcherSpec.

Module MonitorCycleSpec.
Import PyStr Monitor.

(** The job ids a job list gives rise to passes for. *)
Definition job_ids (jobs : list Job) : list string :=
  omap (fun job => if truthy_opt (job_id job) then job_id job else None) jobs.

(** [j] is the id of an entry of one of the job lists. *)
Definition listed (turns : list (list Job)) (j : string) : Prop :=
  exists jobs, jobs ∈ turns /\ j ∈ job_ids jobs.

(** [s'] differs from [s] in the state dictionary at most under key [j]. *)
Definition touches_only (j : string) (s s' : Sys) : Prop :=
  state s' = state s \/ exists js, state s' = <[j := js]> (state s).


(** From [s] to [s'] the requests [reqs] were sent and the events [new]
    appended, in this order, and the state dictionary changed at most
    under [j]. *)
Definition did (j : string) (reqs : list Request) (new : list Event) (s s' : Sys) : Prop :=
  requests s' = requests s ++ reqs /\ events s' = events s ++ new /\
  touches_only j s s'.

(** The kind of a status event fits its status: the status is one of the
    actionable ones, and the kind is [completed] for [COMPLETED] and [error]
    for the others. *)
Definition kind_fits (e : Event) : Prop :=
  match e with
  | StatusEvent kind _ status _ _ =>
      status ∈ ACTIONABLE_STATUSES /\
      kind = (if bool_decide (status = "COMPLETED") then "completed" else "error")
  | _ => True
  end.

(** An event of a pass over [j]. *)
Definition event_of (j : string) (e : Event) : Prop :=
  event_job e = Some j /\ kind_fits e.

(** What a pass over job [j] sends and appends: the status request, then at
    most one messages request; at most one event, which names [j], and none
    when the pass ends with an exception. *)
Definition pass_of `{rt : Runtime} (api_base : string) (token : option string)
    (j : string) (s : Sys) (result : Result unit * Sys) : Prop :=
  exists reqs new,
    did j (build_request (job_status_url api_base j) token :: reqs) new s (snd result) /\
    (length reqs <= 1)%nat /\ (length new <= 1)%nat /\
    Forall (fun q => exists cur,
              q = build_request (job_messages_url api_base j cur) token) reqs /\
    Forall (event_of j) new /\
    (fst result <> Val tt -> new = []) /\
    is_Some (state (snd result) !! j).


(** An event that names a job [L] holds of, or the error event without a
    job that [main] writes. *)
Definition names (L : string -> Prop) (e : Event) : Prop :=
  kind_fits e /\
  match event_job e with
  | Some j => L j
  | None => exists at_ what, e = ErrorEvent None at_ ("Monitor error: " +:+ what)
  end.

(** From [s] to [s'] events naming jobs of [L] were appended, the entries of
    the other jobs were left alone and no entry was removed. *)
Definition kept (L : string -> Prop) (s s' : Sys) : Prop :=
  (exists new, events s' = events s ++ new /\ Forall (names L) new) /\
  (forall j, ~ L j -> state s' !! j = state s !! j) /\
  (forall j, is_Some (state s !! j) -> is_Some (state s' !! j)).


(** The handler an event of the monitor belongs to. *)
Definition handler_of (e : Event) : Handler.Route :=
  match e with
  | ErrorEvent _ _ _ => Handler.handle_error
  | StatusEvent _ _ status _ _ =>
      if bool_decide (status = "COMPLETED") then Handler.handle_completed
      else Handler.handle_error
  | QuestionEvent _ _ _ => Handler.handle_question
  | StuckEvent _ _ _ => Handler.handle_stuck
  end.

End MonitorCycleSpec.

Module WatcherPassSpec.
Import PyStr Watcher WatcherSpec.

Local Open Scope nat_scope.

Section Spec.
Context {Obj : Type} (json_loads : string -> Loaded Obj).

(** The event the handler is run with for the line [raw], when it is run. *)
Definition parsed (raw : string) : option Obj :=
  if truthy (strip raw) then
    match json_loads (strip raw) with
    | Dict event => Some event
    | _ => None
    end
  else None.

(** [raw] holds JSON that is no object: [event.get] fails on it. *)
Definition fatal (raw : string) : bool :=
  truthy (strip raw) &&
  match json_loads (strip raw) with NotDict => true | _ => false end.

(** The delivery [d] is for the [i]-th of the lines [ls] read from [pos]. *)
Definition delivery_of_line (pos : nat) (ls : list string) (d : Delivery Obj) : Prop :=
  exists i raw,
    ls !! i = Some raw /\
    first_byte d = pos + total_length (take i ls) /\
    end_byte d = first_byte d + String.length raw /\
    parsed raw = Some (payload d).

End Spec.

(** A text made of whole lines: it is empty or ends with a line feed. *)
Definition whole_lines (s : string) : Prop :=
  s = "" \/ exists a, s = a +:+ String "010"%char "".

End WatcherPassSpec.

(** * Properties *)

(** ** Substrings, joins and lower case *)

Module PyStrFacts.
Import PyStr PyStrSpec.

Lemma app_cons (x : ascii) (a b : string) : String x a +:+ b = String x (a +:+ b).
Proof. reflexivity. Qed.

Lemma app_assoc_str (a b c : string) : (a +:+ b) +:+ c = a +:+ (b +:+ c).
Proof.
  induction a as [|x a IH]; [reflexivity|].
  rewrite !app_cons. f_equal. exact IH.
Qed.










End PyStrFacts.

(** ** The monitor *)

Module MonitorFacts.
Import PyStr PyStrSpec PyStrFacts Monitor MonitorSpec.

Local Open Scope Z_scope.

Section Facts.
Context {rt : Runtime}.
Implicit Types (s : Sys) (j : string) (api : string) (token : option string) (mins : Z).

Lemma job_state_of_insert (st : gmap string JobState) j x :
  job_state_of (<[j := x]> st) j = x.
Proof. unfold job_state_of. now rewrite lookup_insert_eq. Qed.

Lemma job_state_of_insert_ne (st : gmap string JobState) j j' x :
  j <> j' -> job_state_of (<[j := x]> st) j' = job_state_of st j'.
Proof. intros. unfold job_state_of. now rewrite lookup_insert_ne. Qed.

Lemma appended_app s (st : gmap string JobState) new rq n :
  appended s (mkSys st (events s ++ new) rq n) = new.
Proof. unfold appended. cbn [events]. apply drop_app_length. Qed.

Lemma appended_refl s : appended s s = [].
Proof. unfold appended. apply drop_all. Qed.

(** *** What each block of the loop body computes *)

Lemma process_job_skip api token mins job s :
  truthy_opt (job_id job) = false -> process_job api token mins job s = (Val tt, s).
Proof. intros H. unfold process_job. now rewrite H. Qed.

Ltac enter_body Hid Ht Hu :=
  unfold process_job; rewrite Hid; cbn [truthy_opt negb from_option id];
  rewrite Ht; cbn [negb]; unfold bind at 1; unfold setdefault;
  unfold bind at 1; unfold try_RuntimeError, fetch_json;
  cbn [tick state events requests]; rewrite Hu; reflexivity.

Lemma process_job_fetched api token mins job j s sp :
  job_id job = Some j -> truthy j = true ->
  urlopen (tick s) (build_request (job_status_url api j) token) = Ok200 sp ->
  process_job api token mins job s
  = (track_status j (p_status sp);; after_status api token mins j sp)
      (status_requested api token j s).
Proof. intros Hid Ht Hu. enter_body Hid Ht Hu. Qed.

Lemma process_job_http_error api token mins job j s code body :
  job_id job = Some j -> truthy j = true ->
  urlopen (tick s) (build_request (job_status_url api j) token) = HTTPError code body ->
  process_job api token mins job s
  = (Val tt,
     mkSys (<[j := job_state_of (state s) j]> (state s))
           (events s ++ [ErrorEvent (Some j) (isoformat (clock (S (tick s))))
              ("HTTP " +:+ pretty code +:+ " for " +:+ job_status_url api j +:+ ": " +:+ body)])
           (requests s ++ [build_request (job_status_url api j) token])
           (S (S (tick s)))).
Proof. intros Hid Ht Hu. enter_body Hid Ht Hu. Qed.

Lemma process_job_runtime_error api token mins job j s message :
  job_id job = Some j -> truthy j = true ->
  urlopen (tick s) (build_request (job_status_url api j) token) = RuntimeErrorRaised message ->
  process_job api token mins job s
  = (Val tt,
     mkSys (<[j := job_state_of (state s) j]> (state s))
           (events s ++ [ErrorEvent (Some j) (isoformat (clock (S (tick s)))) message])
           (requests s ++ [build_request (job_status_url api j) token])
           (S (S (tick s)))).
Proof. intros Hid Ht Hu. enter_body Hid Ht Hu. Qed.



Lemma process_job_failure api token mins job j s what :
  job_id job = Some j -> truthy j = true ->
  urlopen (tick s) (build_request (job_status_url api j) token) = OtherFailure what ->
  process_job api token mins job s
  = (Raised (OtherException what), status_requested api token j s).
Proof. intros Hid Ht Hu. enter_body Hid Ht Hu. Qed.

Lemma track_status_eq j status s :
  track_status j status s =
  (Val tt,
   if truthy_opt status && negb (bool_decide (status = last_status (job_state_of (state s) j)))
   then mkSys (<[j := mkJobState (cursor (job_state_of (state s) j)) status
                        (Some (isoformat (clock (tick s))))]> (state s))
              (events s) (requests s) (S (tick s))
   else s).
Proof.
  unfold track_status, bind, read_job_state.
  destruct (truthy_opt status && _); [|reflexivity].
  unfold write_job_state, utc_now, datetime_now, bind, ret. cbn [state events requests tick].
  rewrite job_state_of_insert, insert_insert_eq. reflexivity.
Qed.

Lemma emit_terminal_eq j st sp s :
  emit_terminal j st sp s =
  (Val tt, mkSys (state s)
     (events s ++ [StatusEvent (if bool_decide (st = "COMPLETED") then "completed" else "error")
                               j st (isoformat (clock (tick s))) sp])
     (requests s) (S (tick s))).
Proof. reflexivity. Qed.

Lemma check_messages_eq api token mins j s :
  check_messages api token mins j s =
  match urlopen (tick s) (messages_request api token j s) with
  | Ok200 mp => handle_batch mins j mp (messages_requested api token j s)
  | HTTPError _ _ | RuntimeErrorRaised _ =>
      handle_batch mins j empty_payload (messages_requested api token j s)
  | OtherFailure what => (Raised (OtherException what), messages_requested api token j s)
  end.
Proof.
  unfold check_messages, bind, read_job_state, try_RuntimeError, fetch_json,
    messages_request, messages_requested.
  destruct (urlopen _ _); reflexivity.
Qed.

Lemma handle_batch_eq mins j mp s :
  handle_batch mins j mp s =
  match p_messages mp with
  | None => (Raised (TypeError "'NoneType' object is not iterable"), s)
  | Some messages =>
      let s1 := cursor_advanced j mp s in
      match messages_actionable messages with
      | Some m =>
          if message_truthy m then
            (Val tt,
             mkSys (<[j := set_last_activity (Some (isoformat (clock (S (tick s1)))))
                             (job_state_of (state s1) j)]> (state s1))
                   (events s1 ++ [QuestionEvent j (isoformat (clock (tick s1))) m])
                   (requests s1) (S (S (tick s1))))
          else stuck_check mins j s1
      | None => stuck_check mins j s1
      end
  end.
Proof.
  unfold handle_batch, cursor_advanced, bind.
  destruct (p_messages mp) as [messages|]; [|reflexivity].
  destruct (truthy_opt (p_next_cursor mp)); cbn [write_job_state ret];
    (destruct (messages_actionable _) as [m|]; [|reflexivity]);
    (destruct (message_truthy m); reflexivity).
Qed.


Lemma stuck_check_eq mins j s :
  stuck_check mins j s =
  let js := job_state_of (state s) j in
  let ticked := mkSys (state s) (events s) (requests s) (S (tick s)) in
  if negb (truthy_opt (last_activity js)) then (Val tt, s)
  else
    match fromisoformat (default "" (last_activity js)) with
    | None => (Val tt, s)
    | Some (Naive _) =>
        (Raised (TypeError "can't subtract offset-naive and offset-aware datetimes"), ticked)
    | Some (Aware t) =>
        if total_seconds_ge (clock (tick s) - t) (mins * 60) then
          (Val tt,
           mkSys (<[j := set_last_activity (Some (isoformat (clock (S (S (tick s)))))) js]> (state s))
                 (events s ++ [StuckEvent j (isoformat (clock (S (tick s)))) (last_activity js)])
                 (requests s) (S (S (S (tick s)))))
        else (Val tt, ticked)
    end.
Proof.
  unfold stuck_check, should_emit_stuck, bind, read_job_state.
  cbv zeta.
  destruct (negb (truthy_opt _)); [reflexivity|].
  destruct (fromisoformat _) as [[t|t]|]; [|reflexivity|reflexivity].
  unfold datetime_now, ret. cbn [tick state events requests].
  destruct (total_seconds_ge _ _); reflexivity.
Qed.


Lemma monitor_once_cons api token mins job rest s :
  monitor_once (job :: rest) api token mins s =
  match process_job api token mins job s with
  | (Val _, s') => monitor_once rest api token mins s'
  | (Raised e, s') => (Raised e, s')
  end.
Proof. reflexivity. Qed.

Lemma monitor_once_skip api token mins before job after s :
  truthy_opt (job_id job) = false ->
  monitor_once (before ++ job :: after) api token mins s =
  monitor_once (before ++ after) api token mins s.
Proof.
  intros Hj. revert s. induction before as [|b before IH]; intros s.
  - cbn [app]. rewrite monitor_once_cons, process_job_skip by assumption. reflexivity.
  - cbn [app]. rewrite !monitor_once_cons.
    destruct (process_job api token mins b s) as [[u|e] s']; [apply IH | reflexivity].
Qed.

(** C10: a job-list entry whose [job_id] is missing or empty is passed over:
    the pass returns the system as it found it (no [JobState] entry, no
    event, no request, no clock reading), and the cycle runs as if the entry
    were not in the list. *)
Theorem entry_without_job_id_is_skipped api token mins rest before after s :
  let missing := mkJob None rest in
  let empty := mkJob (Some "") rest in
  process_job api token mins missing s = (Val tt, s) /\
  process_job api token mins empty s = (Val tt, s) /\
  monitor_once (before ++ missing :: after) api token mins s =
    monitor_once (before ++ after) api token mins s /\
  monitor_once (before ++ empty :: after) api token mins s =
    monitor_once (before ++ after) api token mins s.
Proof.
  cbv zeta. split; [|split; [|split]].
  - now apply process_job_skip.
  - now apply process_job_skip.
  - now apply monitor_once_skip.
  - now apply monitor_once_skip.
Qed.

Lemma terminal_status_in (st : string) :
  st ∈ ACTIONABLE_STATUSES -> terminal_status (Some st) = Some st.
Proof. intros H. unfold terminal_status, in_actionable. now rewrite bool_decide_true. Qed.

(** C2: when the fetched status is one of [COMPLETED], [FAILED], [ERROR],
    [CANCELLED], the pass over the job appends exactly one event, of kind
    [completed] for [COMPLETED] and [error] otherwise, carrying the status
    payload; the only request made is the status request, the state is the
    one status tracking left, and the clock is read once more, for the
    event: no message fetch, no classification, no stuck check. *)
Theorem terminal_status_emits_one_event api token mins job j s sp st :
  job_id job = Some j -> truthy j = true ->
  urlopen (tick s) (build_request (job_status_url api j) token) = Ok200 sp ->
  p_status sp = Some st -> st ∈ ACTIONABLE_STATUSES ->
  let tracked := snd (track_status j (Some st) (status_requested api token j s)) in
  let kind := if bool_decide (st = "COMPLETED") then "completed" else "error" in
  let result := process_job api token mins job s in
  fst result = Val tt /\
  appended s (snd result) = [StatusEvent kind j st (isoformat (clock (tick tracked))) sp] /\
  requests (snd result) = requests s ++ [build_request (job_status_url api j) token] /\
  state (snd result) = state tracked /\
  tick (snd result) = S (tick tracked).
Proof.
  intros Hid Ht Hu Hs Hin. cbv zeta.
  rewrite (process_job_fetched _ _ _ _ _ _ _ Hid Ht Hu). unfold bind.
  rewrite Hs, track_status_eq. cbn [snd].
  unfold after_status. rewrite Hs, (terminal_status_in _ Hin), emit_terminal_eq.
  cbn [fst snd state requests tick events].
  destruct (truthy_opt (Some st) && _);
    cbn [state requests tick events status_requested]; rewrite appended_app; auto.
Qed.


(** *** What one pass over a job may change *)

Section Pass.
Variables (mins : Z) (j : string).

Local Abbreviation la_from := (MonitorSpec.la_from j).
Local Abbreviation cur_from := (MonitorSpec.cur_from j).
Local Abbreviation ev_ok := (MonitorSpec.ev_ok mins j).
Local Abbreviation Eff := (MonitorSpec.Eff mins j).

Lemma Eff_refl s : Eff s s.
Proof.
  repeat split; [lia | exists []; split; [now rewrite app_nil_r | constructor] | now left | now left].
Qed.

Lemma la_from_trans s s' la : Eff s s' -> la_from s' la -> la_from s la.
Proof.
  intros (Ht & _ & _ & Hla & _) [-> | (i & Hi & ->)]; [exact Hla|].
  right. exists i. split; [lia | reflexivity].
Qed.

Lemma cur_from_trans s s' c : Eff s s' -> cur_from s' c -> cur_from s c.
Proof.
  intros (_ & _ & _ & _ & Hc) [-> | H]; [exact Hc | now right].
Qed.

Lemma ev_ok_trans s s' e : Eff s s' -> ev_ok s' e -> ev_ok s e.
Proof.
  intros HE [Hj He]. split; [exact Hj|].
  destruct e as [| | |j0 obs la]; try exact I.
  destruct He as (Hla & Htr & t & n & Hp & Hn & Hd & Ho).
  split; [eapply la_from_trans; eassumption|]. split; [exact Htr|].
  exists t, n. destruct HE as (Ht & _). repeat split; try assumption. lia.
Qed.

Lemma Eff_trans s s' s'' : Eff s s' -> Eff s' s'' -> Eff s s''.
Proof.
  intros H1 H2.
  pose proof H1 as (Ht1 & (n1 & He1 & Hf1) & Ho1 & Hl1 & Hc1).
  pose proof H2 as (Ht2 & (n2 & He2 & Hf2) & Ho2 & Hl2 & Hc2).
  split; [lia|]. split.
  { exists (n1 ++ n2)%list. split; [now rewrite He2, He1, app_assoc|].
    apply Forall_app. split; [exact Hf1|].
    eapply Forall_impl; [exact Hf2|]. intros e. now apply ev_ok_trans. }
  split; [intros j' Hj'; now rewrite Ho2, Ho1|].
  split; [eapply la_from_trans; eassumption | eapply cur_from_trans; eassumption].
Qed.

(** The three ways a block changes the system. *)
Lemma Eff_tick s rq n : (tick s <= n)%nat -> Eff s (mkSys (state s) (events s) rq n).
Proof.
  intros Hn. repeat split; cbn [tick events state];
    [lia | exists []; split; [now rewrite app_nil_r | constructor] | now left | now left].
Qed.

Lemma Eff_write s js rq n :
  (tick s <= n)%nat -> la_from s (last_activity js) -> cur_from s (cursor js) ->
  Eff s (mkSys (<[j := js]> (state s)) (events s) rq n).
Proof.
  intros Hn Hl Hc. repeat split; cbn [tick events state].
  - lia.
  - exists []. split; [now rewrite app_nil_r | constructor].
  - intros j' Hj'. now apply job_state_of_insert_ne.
  - now rewrite job_state_of_insert.
  - now rewrite job_state_of_insert.
Qed.

Lemma Eff_append s e rq n :
  (tick s <= n)%nat -> ev_ok s e -> Eff s (mkSys (state s) (events s ++ [e]) rq n).
Proof.
  intros Hn He. repeat split; cbn [tick events state];
    [lia | exists [e]; split; [reflexivity | now constructor] | now left | now left].
Qed.


Lemma Eff_append_write s e js rq n :
  (tick s <= n)%nat -> ev_ok s e ->
  la_from s (last_activity js) -> cur_from s (cursor js) ->
  Eff s (mkSys (<[j := js]> (state s)) (events s ++ [e]) rq n).
Proof.
  intros Hn He Hl Hc. repeat split; cbn [tick events state].
  - lia.
  - exists [e]. split; [reflexivity | now constructor].
  - intros j' Hj'. now apply job_state_of_insert_ne.
  - now rewrite job_state_of_insert.
  - now rewrite job_state_of_insert.
Qed.

Lemma stuck_check_Eff s : Eff s (snd (stuck_check mins j s)).
Proof.
  rewrite stuck_check_eq. cbv zeta.
  destruct (negb (truthy_opt _)) eqn:Htr; [apply Eff_refl|].
  destruct (fromisoformat _) as [[t|t]|] eqn:Hp; cbn [snd];
    [| apply Eff_tick; lia | apply Eff_refl].
  destruct (total_seconds_ge _ _) eqn:Hd; cbn [snd]; [| apply Eff_tick; lia].
  apply negb_false_iff in Htr.
  apply Eff_append_write.
  - lia.
  - split; [reflexivity|]. split; [now left|]. split; [exact Htr|].
    exists t, (tick s). repeat split; [exact Hp | lia | exact Hd].
  - right. exists (S (S (tick s))). split; [lia | reflexivity].
  - now left.
Qed.

Lemma cursor_advanced_Eff mp s : Eff s (cursor_advanced j mp s).
Proof.
  unfold cursor_advanced. destruct (truthy_opt (p_next_cursor mp)) eqn:Hc; [|apply Eff_refl].
  destruct s as [st ev rq n]. apply (Eff_write (mkSys st ev rq n)); cbn [tick]; [lia | now left |].
  right. cbn [set_cursor cursor]. destruct (p_next_cursor mp) as [tok|]; [|discriminate].
  now exists tok.
Qed.

Lemma handle_batch_Eff mp s : Eff s (snd (handle_batch mins j mp s)).
Proof.
  rewrite handle_batch_eq.
  destruct (p_messages mp) as [messages|]; [|apply Eff_refl]. cbv zeta.
  eapply Eff_trans; [apply (cursor_advanced_Eff mp)|].
  set (s1 := cursor_advanced j mp s).
  assert (Eff s1 (snd (stuck_check mins j s1))) as Hstuck by apply stuck_check_Eff.
  destruct (messages_actionable _) as [m|]; [|exact Hstuck].
  destruct (message_truthy m); [|exact Hstuck]. cbn [snd].
  apply Eff_append_write.
  - lia.
  - now split.
  - right. exists (S (tick s1)). split; [lia | reflexivity].
  - now left.
Qed.

Lemma check_messages_Eff api token s : Eff s (snd (check_messages api token mins j s)).
Proof.
  rewrite check_messages_eq.
  assert (Eff s (messages_requested api token j s)) as H by (apply Eff_tick; lia).
  destruct (urlopen _ _); cbn [snd]; try exact H;
    (eapply Eff_trans; [exact H | apply handle_batch_Eff]).
Qed.

Lemma track_status_Eff status s : Eff s (snd (track_status j status s)).
Proof.
  rewrite track_status_eq. cbn [snd].
  destruct (truthy_opt status && _); [|apply Eff_refl].
  destruct s as [st ev rq n]. apply (Eff_write (mkSys st ev rq n)); cbn [tick]; [lia | | now left].
  right. exists n. split; [cbn; lia | reflexivity].
Qed.

Lemma after_status_Eff api token sp s : Eff s (snd (after_status api token mins j sp s)).
Proof.
  unfold after_status. destruct (terminal_status _) as [st|]; [|apply check_messages_Eff].
  rewrite emit_terminal_eq. cbn [snd]. apply Eff_append; [lia | now split].
Qed.

Lemma status_requested_Eff api token s : Eff s (status_requested api token j s).
Proof. apply Eff_write; [lia | now left | now left]. Qed.

Lemma process_job_Eff api token job s :
  job_id job = Some j -> truthy j = true ->
  Eff s (snd (process_job api token mins job s)).
Proof.
  intros Hid Ht.
  destruct (urlopen (tick s) (build_request (job_status_url api j) token))
    as [sp|code body|message|what] eqn:Hu.
  - rewrite (process_job_fetched _ _ _ _ _ _ _ Hid Ht Hu). unfold bind.
    rewrite track_status_eq.
    eapply Eff_trans; [apply status_requested_Eff|].
    eapply Eff_trans; [apply (track_status_Eff (p_status sp))|].
    rewrite track_status_eq. cbn [snd]. apply after_status_Eff.
  - rewrite (process_job_http_error _ _ _ _ _ _ _ _ Hid Ht Hu). cbn [snd].
    eapply Eff_trans; [apply (status_requested_Eff api token)|].
    apply (Eff_append (status_requested api token j s)); [cbn; lia | now split].
  - rewrite (process_job_runtime_error _ _ _ _ _ _ _ Hid Ht Hu). cbn [snd].
    eapply Eff_trans; [apply (status_requested_Eff api token)|].
    apply (Eff_append (status_requested api token j s)); [cbn; lia | now split].
  - rewrite (process_job_failure _ _ _ _ _ _ _ Hid Ht Hu). apply status_requested_Eff.
Qed.

End Pass.

(** *** From one pass to cycles and runs *)

Lemma process_job_falsy_or_Eff api token mins job s :
  process_job api token mins job s = (Val tt, s) \/
  exists j, job_id job = Some j /\ truthy j = true /\
            Eff mins j s (snd (process_job api token mins job s)).
Proof.
  destruct (truthy_opt (job_id job)) eqn:Ht.
  - right. destruct (job_id job) as [j|] eqn:Hj; [|discriminate].
    exists j. split; [reflexivity|]. split; [exact Ht|]. now apply process_job_Eff.
  - left. now apply process_job_skip.
Qed.

Section Lift.
Variables (api : string) (token : option string) (mins : Z).
Variable Inv : Sys -> Prop.
Hypothesis Inv_pass :
  forall job s, Inv s -> Inv (snd (process_job api token mins job s)).
Hypothesis Inv_log :
  forall msg s, Inv s ->
    Inv (mkSys (state s) (events s ++ [ErrorEvent None (isoformat (clock (tick s))) msg])
               (requests s) (S (tick s))).

Lemma Inv_monitor_once jobs s :
  Inv s -> Inv (snd (monitor_once jobs api token mins s)).
Proof.
  revert s. induction jobs as [|job rest IH]; intros s Hs; [exact Hs|].
  rewrite monitor_once_cons. pose proof (Inv_pass job s Hs) as Hp.
  destruct (process_job api token mins job s) as [[u|e] s']; [now apply IH | exact Hp].
Qed.

Lemma Inv_main_cycle jobs s : Inv s -> Inv (main_cycle api token mins jobs s).
Proof.
  intros Hs. unfold main_cycle. destruct jobs as [|job rest]; [exact Hs|].
  pose proof (Inv_monitor_once (job :: rest) s Hs) as Hm.
  destruct (monitor_once (job :: rest) api token mins s) as [[u|e] s']; [exact Hm|].
  apply (Inv_log _ s' Hm).
Qed.

Lemma Inv_main_loop turns s : Inv s -> Inv (main_loop api token mins turns s).
Proof.
  revert s. induction turns as [|jobs later IH]; intros s Hs; [exact Hs|].
  cbn [main_loop]. apply IH. now apply Inv_main_cycle.
Qed.

End Lift.

Lemma appends_only_appended Q s s' :
  appends_only Q s s' -> events s' = (events s ++ appended s s')%list /\ Forall Q (appended s s').
Proof.
  intros (new & He & Hf). unfold appended. rewrite He, drop_app_length. now split.
Qed.

Lemma appends_only_more Q s s' s'' new :
  appends_only Q s s' -> events s'' = (events s' ++ new)%list -> Forall Q new ->
  appends_only Q s s''.
Proof.
  intros (n1 & He & Hf) He' Hf'. exists (n1 ++ new)%list.
  split; [now rewrite He', He, app_assoc | now apply Forall_app].
Qed.


(** *** Stuck events carry a parsed [last_activity] *)

Lemma ev_ok_stuck_parsed mins j s e : ev_ok mins j s e -> stuck_parsed e.
Proof.
  intros [_ H]. destruct e as [| | |j0 obs la]; try exact I.
  destruct H as (_ & Htr & t & n & Hp & _). split; [exact Htr | now exists t].
Qed.

Lemma main_loop_stuck_parsed api token mins turns s :
  appends_only stuck_parsed s (main_loop api token mins turns s).
Proof.
  apply (Inv_main_loop api token mins (appends_only stuck_parsed s)).
  - intros job s1 H1.
    destruct (process_job_falsy_or_Eff api token mins job s1)
      as [-> | (j & _ & _ & _ & (new & He & Hf) & _)]; [exact H1|].
    eapply appends_only_more; [exact H1 | exact He |].
    eapply Forall_impl; [exact Hf|]. intros e. apply ev_ok_stuck_parsed.
  - intros msg s1 H1. eapply appends_only_more; [exact H1 | reflexivity |].
    repeat constructor.
  - exists []. split; [now rewrite app_nil_r | constructor].
Qed.

(** *** A job without a timer *)

Section Unarmed.
Variables (api : string) (token : option string) (mins : Z) (j : string) (s0 : Sys).
Hypothesis no_timer :
  truthy_opt (last_activity (job_state_of (state s0) j)) = false \/
  fromisoformat (default "" (last_activity (job_state_of (state s0) j))) = None.

Lemma timer_from_pass job s :
  timer_from j s0 s -> timer_from j s0 (snd (process_job api token mins job s)).
Proof.
  intros (Ht & Hla & Happ).
  destruct (process_job_falsy_or_Eff api token mins job s)
    as [-> | (j' & Hid & Htr & HE)]; [now repeat split|].
  pose proof HE as (Ht' & (new & He & Hf) & Hother & Hla' & _).
  assert (forall la, la_from j' s la -> j' = j -> la_from j s0 la) as Hfrom.
  { intros la [-> | (i & Hi & ->)] ->; [exact Hla|].
    right. exists i. split; [lia | reflexivity]. }
  split; [lia|]. split.
  - destruct (decide (j' = j)) as [->|Hne]; [now apply Hfrom|].
    rewrite Hother by congruence. exact Hla.
  - eapply appends_only_more; [exact Happ | exact He |].
    eapply Forall_impl; [exact Hf|]. intros e [Hj He'].
    destruct e as [| | |j1 obs la]; try exact I.
    cbn in Hj. injection Hj as ->. intros ->.
    destruct He' as (Hl & Htruthy & t & n & Hp & _).
    destruct (Hfrom la Hl eq_refl) as [-> | Hstamp]; [|exact Hstamp].
    destruct no_timer as [Hb | Hb]; congruence.
Qed.

Lemma timer_from_run turns : timer_from j s0 (main_loop api token mins turns s0).
Proof.
  apply (Inv_main_loop api token mins (timer_from j s0)).
  - intros job s. apply timer_from_pass.
  - intros msg s (Ht & Hla & Happ). split; [cbn; lia|]. split; [exact Hla|].
    eapply appends_only_more; [exact Happ | reflexivity | repeat constructor].
  - split; [lia|]. split; [now left|].
    exists []. split; [now rewrite app_nil_r | constructor].
Qed.

End Unarmed.

(** C9 (amended): while a job's [last_activity] is unset, empty or rejected
    by [fromisoformat], the stuck test is false whatever the threshold and
    the clock, and the stuck check leaves the system as it is.  And from a
    state in which this is the job's [last_activity], every stuck event that
    a run of the main loop, however long, appends for the job reports
    another [last_activity]: a timestamp that the monitor itself took during
    the run, and that parsed.  The job has no stuck timer until the monitor
    starts one. *)
Theorem no_stuck_event_without_parsed_last_activity
    api token mins turns j (la : option string) s :
  truthy_opt la = false \/ fromisoformat (default "" la) = None ->
  last_activity (job_state_of (state s) j) = la ->
  (forall threshold s0, should_emit_stuck la threshold s0 = (Val false, s0)) /\
  (forall s0, last_activity (job_state_of (state s0) j) = la ->
              stuck_check mins j s0 = (Val tt, s0)) /\
  (forall obs la',
     StuckEvent j obs la' ∈ appended s (main_loop api token mins turns s) ->
     la' <> la /\
     (exists i, (tick s <= i)%nat /\ la' = Some (isoformat (clock i))) /\
     truthy_opt la' = true /\
     exists t, fromisoformat (default "" la') = Some (Aware t)).
Proof.
  intros Hbad Hs. split; [|split].
  - intros threshold s0. unfold should_emit_stuck.
    destruct Hbad as [-> | ->]; [reflexivity|].
    now destruct (negb (truthy_opt la)).
  - intros s0 Hla. rewrite stuck_check_eq. cbv zeta. rewrite Hla.
    destruct Hbad as [-> | ->]; [reflexivity|].
    now destruct (negb (truthy_opt la)).
  - intros obs la' Hin.
    destruct (appends_only_appended _ _ _ (main_loop_stuck_parsed api token mins turns s))
      as [_ Hparsed].
    rewrite Forall_forall in Hparsed. destruct (Hparsed _ Hin) as (Htr & t & Hp).
    rewrite <- Hs in Hbad.
    destruct (timer_from_run api token mins j s Hbad turns) as (_ & _ & Hstamped).
    apply appends_only_appended in Hstamped as [_ Hstamped].
    rewrite Forall_forall in Hstamped. specialize (Hstamped _ Hin eq_refl).
    split; [|split; [exact Hstamped | split; [exact Htr | now exists t]]].
    intros ->. rewrite <- Hs in Htr, Hp. destruct Hbad as [Hb | Hb]; congruence.
Qed.


(** *** The pass that emits a stuck event *)

Lemma appended_same_events s s1 s' :
  events s1 = events s -> appended s1 s' = appended s s'.
Proof. intros H. unfold appended. now rewrite H. Qed.

Lemma appended_nil s s' : events s' = events s -> appended s s' = [].
Proof. intros H. unfold appended. rewrite H. apply drop_all. Qed.

Lemma stuck_check_outcome mins j s :
  Forall not_stuck (appended s (snd (stuck_check mins j s))) \/
  stuck_fired mins j s (stuck_check mins j s).
Proof.
  unfold stuck_fired. rewrite stuck_check_eq. cbv zeta.
  destruct (negb (truthy_opt _)) eqn:Htr; [left; cbn [snd]; rewrite appended_refl; constructor|].
  apply negb_false_iff in Htr.
  destruct (fromisoformat _) as [[t|t]|] eqn:Hp; cbn [snd].
  - destruct (total_seconds_ge _ _) eqn:Hd.
    + right. exists t. auto.
    + left. rewrite appended_nil by reflexivity. constructor.
  - left. rewrite appended_nil by reflexivity. constructor.
  - left. rewrite appended_refl. constructor.
Qed.

Lemma cursor_advanced_events j mp s : events (cursor_advanced j mp s) = events s.
Proof. unfold cursor_advanced. now destruct (truthy_opt _). Qed.

Lemma handle_batch_outcome mins j mp s :
  Forall not_stuck (appended s (snd (handle_batch mins j mp s))) \/
  stuck_fired mins j (cursor_advanced j mp s) (handle_batch mins j mp s).
Proof.
  rewrite handle_batch_eq.
  destruct (p_messages mp) as [messages|];
    [|left; cbn [snd]; rewrite appended_refl; constructor].
  cbv zeta.
  pose proof (stuck_check_outcome mins j (cursor_advanced j mp s)) as Hs.
  rewrite (appended_same_events s) in Hs by apply cursor_advanced_events.
  destruct (messages_actionable _) as [m|]; [|exact Hs].
  destruct (message_truthy m); [|exact Hs].
  left. cbn [snd]. rewrite <- (appended_same_events s (cursor_advanced j mp s))
    by apply cursor_advanced_events.
  rewrite appended_app. repeat constructor.
Qed.

Lemma check_messages_outcome api token mins j s :
  Forall not_stuck (appended s (snd (check_messages api token mins j s))) \/
  exists s2, events s2 = events s /\ Eff mins j s s2 /\
             stuck_fired mins j s2 (check_messages api token mins j s).
Proof.
  rewrite check_messages_eq.
  set (s1 := messages_requested api token j s).
  assert (events s1 = events s) as He by reflexivity.
  assert (Eff mins j s s1) as HE by (apply Eff_tick; lia).
  assert (forall mp,
    Forall not_stuck (appended s (snd (handle_batch mins j mp s1))) \/
    exists s2, events s2 = events s /\ Eff mins j s s2 /\
               stuck_fired mins j s2 (handle_batch mins j mp s1)) as Hb.
  { intros mp. destruct (handle_batch_outcome mins j mp s1) as [H|H].
    - left. now rewrite <- (appended_same_events s s1).
    - right. exists (cursor_advanced j mp s1). split; [now rewrite cursor_advanced_events|].
      split; [|exact H]. eapply Eff_trans; [exact HE | apply cursor_advanced_Eff]. }
  destruct (urlopen _ _); [apply Hb | apply Hb | apply Hb |].
  left. cbn [snd]. rewrite appended_nil by exact He. constructor.
Qed.

Lemma track_status_events j status s : events (snd (track_status j status s)) = events s.
Proof. rewrite track_status_eq. cbn [snd]. now destruct (_ && _). Qed.

Lemma process_job_outcome api token mins job j s :
  job_id job = Some j -> truthy j = true ->
  Forall not_stuck (appended s (snd (process_job api token mins job s))) \/
  exists s2, events s2 = events s /\ Eff mins j s s2 /\
             stuck_fired mins j s2 (process_job api token mins job s).
Proof.
  intros Hid Ht.
  destruct (urlopen (tick s) (build_request (job_status_url api j) token))
    as [sp|code body|message|what] eqn:Hu.
  - rewrite (process_job_fetched _ _ _ _ _ _ _ Hid Ht Hu). unfold bind.
    rewrite track_status_eq.
    pose proof (track_status_Eff mins j (p_status sp) (status_requested api token j s)) as HE.
    pose proof (track_status_events j (p_status sp) (status_requested api token j s)) as Hev.
    rewrite track_status_eq in HE, Hev. cbn [snd] in HE, Hev.
    match type of HE with Eff _ _ _ ?x => set (s1 := x) in * end.
    assert (Eff mins j s s1) as HE1
      by (eapply Eff_trans; [apply status_requested_Eff | exact HE]).
    assert (events s1 = events s) as He1 by (now rewrite Hev).
    unfold after_status. destruct (terminal_status _) as [st|].
    + left. rewrite emit_terminal_eq. cbn [snd].
      rewrite <- (appended_same_events s s1) by exact He1.
      rewrite appended_app. repeat constructor.
    + destruct (check_messages_outcome api token mins j s1) as [H | (s2 & He2 & HE2 & H)].
      * left. now rewrite <- (appended_same_events s s1).
      * right. exists s2. split; [congruence|]. split; [|exact H].
        eapply Eff_trans; eassumption.
  - left. rewrite (process_job_http_error _ _ _ _ _ _ _ _ Hid Ht Hu). cbn [snd].
    rewrite appended_app. repeat constructor.
  - left. rewrite (process_job_runtime_error _ _ _ _ _ _ _ Hid Ht Hu). cbn [snd].
    rewrite appended_app. repeat constructor.
  - left. rewrite (process_job_failure _ _ _ _ _ _ _ Hid Ht Hu). cbn [snd].
    rewrite appended_nil by reflexivity. constructor.
Qed.


(** *** Debounce *)

Section Debounce.
Variables (api : string) (token : option string) (mins : Z) (j : string).
Variable reset : Z.
Hypothesis iso_roundtrip :
  forall n, fromisoformat (isoformat (clock n)) = Some (Aware (clock n)).
Hypothesis clock_monotone : forall m n, (m <= n)%nat -> clock m <= clock n.
Hypothesis seconds_exact :
  forall us, total_seconds_ge us (mins * 60) = (mins * 60 * 1000000 <=? us).

Local Abbreviation late_stuck := (MonitorSpec.late_stuck mins j reset).
Local Abbreviation timer_since := (MonitorSpec.timer_since j reset).
Local Abbreviation debounced := (MonitorSpec.debounced mins j reset).

Lemma debounced_pass s0 job s :
  reset <= clock (tick s0) -> debounced s0 s ->
  debounced s0 (snd (process_job api token mins job s)).
Proof.
  intros Hr (Ht & Happ & Htimer).
  destruct (process_job_falsy_or_Eff api token mins job s)
    as [-> | (j' & Hid & Htr & HE)]; [now repeat split|].
  pose proof HE as (Ht' & (new & He & Hf) & Hother & Hla & _).
  assert (forall la, la_from j' s la -> j' = j ->
            exists i, la = Some (isoformat (clock i)) /\ reset <= clock i) as Hstamp.
  { intros la [-> | (i & Hi & ->)] ->; [exact Htimer|].
    exists i. split; [reflexivity|].
    transitivity (clock (tick s0)); [exact Hr | apply clock_monotone; lia]. }
  split; [lia|]. split.
  - eapply appends_only_more; [exact Happ | exact He |].
    eapply Forall_impl; [exact Hf|]. intros e [Hj He'].
    destruct e as [| | |j0 obs la]; try exact I.
    cbn in Hj. injection Hj as ->. intros ->.
    destruct He' as (Hfrom & _ & t & n & Hp & Hn & Hd & ->).
    destruct (Hstamp la Hfrom eq_refl) as (i & -> & Hi).
    cbn in Hp. rewrite iso_roundtrip in Hp. injection Hp as <-.
    rewrite seconds_exact in Hd. apply Z.leb_le in Hd.
    exists (S n). split; [reflexivity|].
    pose proof (clock_monotone n (S n)). lia.
  - destruct (decide (j' = j)) as [->|Hne].
    + destruct (Hstamp _ Hla eq_refl) as (i & Hi1 & Hi2). now exists i.
    + destruct Htimer as (i & Hi1 & Hi2). exists i. split; [|exact Hi2].
      rewrite Hother by congruence. exact Hi1.
Qed.

Lemma debounced_run turns s :
  reset <= clock (tick s) -> timer_since s ->
  appends_only late_stuck s (main_loop api token mins turns s).
Proof.
  intros Hr Htimer.
  enough (debounced s (main_loop api token mins turns s)) as (_ & H & _) by exact H.
  apply (Inv_main_loop api token mins (debounced s)).
  - intros job s1. now apply debounced_pass.
  - intros msg s1 (Ht & Happ & Ht'). split; [cbn; lia|]. split; [|exact Ht'].
    eapply appends_only_more; [exact Happ | reflexivity | repeat constructor].
  - split; [lia|]. split; [|exact Htimer].
    exists []. split; [now rewrite app_nil_r | constructor].
Qed.

End Debounce.

(** C4: stuck detection is debounced.  Given that timestamps written by
    [isoformat] are read back by [fromisoformat], that the clock never goes
    back, and that at this threshold the floating-point test
    [delta.total_seconds() >= threshold_minutes * 60] decides as the exact
    quotient does (the two can differ, by a microsecond, only for thresholds
    of centuries): if the pass over job [j] appends a stuck event, then it is the
    only event of the pass (no terminal and no question event), the
    [last_activity] it reports parsed to an instant [T0] with
    [now - T0 >= mins] minutes at a clock reading of the pass, the pass
    leaves [last_activity] at a clock reading [r] of its own, and every stuck
    event for [j] that any later run appends is observed at least [mins]
    minutes after [r]. *)
Theorem stuck_detection_is_debounced api token mins job j s obs la :
  (forall n, fromisoformat (isoformat (clock n)) = Some (Aware (clock n))) ->
  (forall m n, (m <= n)%nat -> clock m <= clock n) ->
  (forall us, total_seconds_ge us (mins * 60) = (mins * 60 * 1000000 <=? us)) ->
  job_id job = Some j -> truthy j = true ->
  let s' := snd (process_job api token mins job s) in
  StuckEvent j obs la ∈ appended s s' ->
  appended s s' = [StuckEvent j obs la] /\
  (exists T0 n, truthy_opt la = true /\
                fromisoformat (default "" la) = Some (Aware T0) /\
                (tick s <= n < tick s')%nat /\
                mins * 60 * 1000000 <= clock n - T0) /\
  (exists r, (tick s <= r < tick s')%nat /\
     last_activity (job_state_of (state s') j) = Some (isoformat (clock r)) /\
     forall turns j' obs' la',
       StuckEvent j' obs' la' ∈ appended s' (main_loop api token mins turns s') ->
       j' = j ->
       exists n, obs' = isoformat (clock n) /\
                 clock r + mins * 60 * 1000000 <= clock n).
Proof.
  intros Hrt Hmono Hexact Hid Ht s' Hin. subst s'.
  destruct (process_job_outcome api token mins job j s Hid Ht)
    as [Hnone | (s2 & He2 & HE2 & t & Htr & Hp & Hd & Hres)].
  { rewrite Forall_forall in Hnone. destruct (Hnone _ Hin). }
  rewrite Hexact in Hd. apply Z.leb_le in Hd.
  rewrite Hres in Hin |- *. cbn [snd] in Hin |- *.
  rewrite <- (appended_same_events s s2), appended_app in Hin |- * by exact He2.
  apply list_elem_of_singleton in Hin. injection Hin as -> ->.
  destruct HE2 as (Ht2 & _).
  split; [reflexivity|]. split.
  { exists t, (tick s2). cbn [tick]. repeat split; try assumption; lia. }
  exists (S (S (tick s2))). cbn [tick state]. split; [lia|].
  rewrite job_state_of_insert. split; [reflexivity|].
  intros turns j' obs' la' Hin' ->.
  match type of Hin' with _ ∈ appended ?x _ => set (s1 := x) in * end.
  destruct (appends_only_appended _ _ _
              (debounced_run api token mins j (clock (S (S (tick s2)))) Hrt Hmono Hexact
                 turns s1
                 ltac:(apply Hmono; cbn; lia)
                 ltac:(exists (S (S (tick s2))); split;
                        [cbn; now rewrite job_state_of_insert | lia]))) as [_ Hall].
  rewrite Forall_forall in Hall. exact (Hall _ Hin' eq_refl).
Qed.



(** C8 (amended): when the status fetch succeeds, the rest of the pass runs
    from the state status tracking leaves.  A fetched status that is set,
    not empty and different from the stored [last_status] replaces it, and
    [last_activity] becomes the clock reading taken then; a fetched status
    that is absent, empty or equal to [last_status] leaves the system as it
    was, both fields included. *)
Theorem status_change_is_tracked api token mins job j s sp :
  job_id job = Some j -> truthy j = true ->
  urlopen (tick s) (build_request (job_status_url api j) token) = Ok200 sp ->
  let fetched := p_status sp in
  let before := job_state_of (state s) j in
  let requested := status_requested api token j s in
  let tracked := snd (track_status j fetched requested) in
  let after := job_state_of (state tracked) j in
  process_job api token mins job s = after_status api token mins j sp tracked /\
  (truthy_opt fetched = true -> fetched <> last_status before ->
     last_status after = fetched /\
     last_activity after = Some (isoformat (clock (tick requested)))) /\
  (truthy_opt fetched = false \/ fetched = last_status before ->
     tracked = requested /\
     last_status after = last_status before /\
     last_activity after = last_activity before).
Proof.
  intros Hid Ht Hu. cbv zeta.
  rewrite (process_job_fetched _ _ _ _ _ _ _ Hid Ht Hu). unfold bind.
  rewrite track_status_eq. cbn [snd].
  cbn [status_requested state]. rewrite job_state_of_insert.
  split; [reflexivity|]. split.
  - intros Htr Hne. rewrite Htr, bool_decide_false by exact Hne.
    cbn [andb negb state]. rewrite job_state_of_insert. now split.
  - intros Hsame.
    assert (truthy_opt (p_status sp) &&
            negb (bool_decide (p_status sp = last_status (job_state_of (state s) j))) = false)
      as -> by (destruct Hsame as [-> | Heq];
                [reflexivity | rewrite bool_decide_true by exact Heq; apply andb_false_r]).
    unfold status_requested at 3 4. cbn [state]. rewrite job_state_of_insert.
    now repeat split.
Qed.









(** *** The question predicate *)







End Facts.
End MonitorFacts.

(** ** The monitor on the demo service *)

Module MonitorRuns.
Import PyStr PyStrSpec PyStrFacts Monitor MonitorSpec MonitorFacts Demo DemoMore.

Local Open Scope Z_scope.

#[local] Existing Instance demo_runtime.

(** Closing a goal with an instance [W] of a theorem: both are evaluated
    and must then coincide. *)
Ltac by_instance W :=
  let H := fresh "H" in
  pose proof W as H; cbv zeta in H; vm_compute in H |- *; exact H.

Lemma demo_roundtrip (n : nat) :
  fromisoformat (isoformat (clock n)) = Some (Aware (clock n)).
Proof. do 6 (destruct n as [|n]; [reflexivity|]). reflexivity. Qed.

Lemma demo_clock_monotone (m n : nat) : (m <= n)%nat -> clock m <= clock n.
Proof.
  intros H.
  do 6 (destruct m as [|m];
        [do 6 (destruct n as [|n]; [first [lia | vm_compute; discriminate]|]);
         vm_compute; discriminate|]).
  do 6 (destruct n as [|n]; [lia|]). reflexivity.
Qed.

(** The completed job of the demo: one [completed] event with its payload. *)
Lemma terminal_status_emits_one_event_witness :
  let result := process_job api_base None 20 (job "done") fresh in
  fst result = Val tt /\
  appended fresh (snd result) =
    [StatusEvent "completed" "done" "COMPLETED" "2024-01-01T00:27:00+00:00"
       (mkPayload (Some "COMPLETED") None None [("title", "Fix login")])] /\
  requests (snd result) = [mkRequest "https://jules.example/v1/jobs/done" None] /\
  state (snd result) =
    state (snd (track_status "done" (Some "COMPLETED")
                  (status_requested api_base None "done" fresh))) /\
  tick (snd result) = 3%nat.
Proof.
  by_instance
    (terminal_status_emits_one_event api_base None 20 (job "done") "done" fresh
       (mkPayload (Some "COMPLETED") None None [("title", "Fix login")]) "COMPLETED"
       eq_refl eq_refl eq_refl eq_refl (list_elem_of_here _ _)).
Defined.

(** A job that goes from [RUNNING] to [COMPLETED] between two polls: the
    two turns append one event, the [completed] one. *)
Example job_completing_between_polls :
  events (main_loop api_base None 20 [[job "finishing"]; [job "finishing"]] fresh) =
    [StatusEvent "completed" "finishing" "COMPLETED" "2024-01-01T00:50:00+00:00"
       (mkPayload (Some "COMPLETED") None None [])].
Proof. reflexivity. Qed.




(** The demo's scenario for C4: [idle] was last active at midnight and the
    threshold is 20 minutes.  The pass at 00:27 emits the stuck event and
    resets the timer to 00:31; the next turns, at 00:50, emit none. *)
Lemma stuck_detection_is_debounced_witness :
  let s' := snd (process_job api_base None 20 (job "idle") idle_since_midnight) in
  appended idle_since_midnight s' =
    [StuckEvent "idle" "2024-01-01T00:30:00+00:00" (Some "2024-01-01T00:00:00+00:00")] /\
  (exists T0 n,
     truthy_opt (Some "2024-01-01T00:00:00+00:00") = true /\
     fromisoformat "2024-01-01T00:00:00+00:00" = Some (Aware T0) /\
     (0 <= n < 5)%nat /\ 20 * 60 * 1000000 <= clock n - T0) /\
  (exists r, (0 <= r < 5)%nat /\
     last_activity (job_state_of (state s') "idle") = Some (isoformat (clock r)) /\
     forall turns j' obs' la',
       StuckEvent j' obs' la' ∈ appended s' (main_loop api_base None 20 turns s') ->
       j' = "idle" ->
       exists n, obs' = isoformat (clock n) /\
                 clock r + 20 * 60 * 1000000 <= clock n).
Proof.
  apply (stuck_detection_is_debounced api_base None 20 (job "idle") "idle"
           idle_since_midnight "2024-01-01T00:30:00+00:00"
           (Some "2024-01-01T00:00:00+00:00")
           demo_roundtrip demo_clock_monotone (fun us => eq_refl) eq_refl eq_refl).
  vm_compute. apply list_elem_of_here.
Defined.

Example idle_job_two_polls :
  events (main_loop api_base None 20 [[job "idle"]; [job "idle"]] idle_since_midnight) =
    [StuckEvent "idle" "2024-01-01T00:30:00+00:00" (Some "2024-01-01T00:00:00+00:00")].
Proof. reflexivity. Qed.

(** A stored timestamp without offset parses, and the subtraction in the
    stuck test raises: the cycle ends there and the next job is not reached. *)
Example naive_timestamp_ends_the_cycle :
  let cycle := monitor_once [job "idle"; job "done"] api_base None 20
                 idle_since_naive_midnight in
  fst cycle = Raised (TypeError "can't subtract offset-naive and offset-aware datetimes") /\
  events (snd cycle) = [] /\
  map req_url (requests (snd cycle)) =
    ["https://jules.example/v1/jobs/idle"; "https://jules.example/v1/jobs/idle/messages"].
Proof. vm_compute. repeat split. Qed.





(** The demo's [asking] job, first seen: the status and the timer are set. *)
Lemma status_change_is_tracked_witness :
  let tracked :=
    snd (track_status "asking" (Some "RUNNING")
           (status_requested api_base None "asking" fresh)) in
  process_job api_base None 20 (job "asking") fresh =
    after_status api_base None 20 "asking" (mkPayload (Some "RUNNING") None None []) tracked /\
  last_status (job_state_of (state tracked) "asking") = Some "RUNNING" /\
  last_activity (job_state_of (state tracked) "asking") = Some "2024-01-01T00:26:00+00:00".
Proof.
  pose proof (status_change_is_tracked api_base None 20 (job "asking") "asking" fresh
                (mkPayload (Some "RUNNING") None None []) eq_refl eq_refl eq_refl)
    as (H1 & H2 & _).
  split; [exact H1|]. apply H2; [reflexivity | discriminate].
Defined.

(** C8 as stated fails when the payload has no status: the fetched status
    (none) differs from the stored [RUNNING], and neither field moves. *)
Lemma absent_status_is_not_tracked :
  let before := job_state_of (state nostatus_was_running) "nostatus" in
  let result := process_job api_base None 20 (job "nostatus") nostatus_was_running in
  let after := job_state_of (state (snd result)) "nostatus" in
  urlopen 0 (build_request (job_status_url api_base "nostatus") None) =
    Ok200 (mkPayload None None None [("name", "jobs/nostatus")]) /\
  last_status before = Some "RUNNING" /\
  fst result = Val tt /\
  last_status after = Some "RUNNING" /\
  last_activity after = last_activity before /\
  last_activity after = Some "2024-01-01T00:26:00+00:00".
Proof. vm_compute. repeat split. Qed.

(** A job that was never seen: the stuck check does nothing on it, and what
    two turns append for it reports a timestamp of the run. *)
Lemma no_stuck_event_without_parsed_last_activity_witness :
  (forall threshold s0, should_emit_stuck None threshold s0 = (Val false, s0)) /\
  (forall s0, last_activity (job_state_of (state s0) "idle") = None ->
              stuck_check 20 "idle" s0 = (Val tt, s0)) /\
  (forall obs la',
     StuckEvent "idle" obs la' ∈
       appended fresh (main_loop api_base None 20 [[job "idle"]; [job "idle"]] fresh) ->
     la' <> None /\
     (exists i, (0 <= i)%nat /\ la' = Some (isoformat (clock i))) /\
     truthy_opt la' = true /\
     exists t, fromisoformat (default "" la') = Some (Aware t)).
Proof.
  apply (no_stuck_event_without_parsed_last_activity api_base None 20
           [[job "idle"]; [job "idle"]] "idle" None fresh).
  - left. reflexivity.
  - reflexivity.
Defined.

(** C9 as stated fails for a job that was never seen: [idle] has no
    [last_activity], the first turn sees its status for the first time and
    starts the timer at 00:26, and the second turn, at 00:50, emits a stuck
    event for it. *)
Lemma first_status_starts_the_stuck_timer :
  last_activity (job_state_of (state fresh) "idle") = None /\
  events (main_loop api_base None 20 [[job "idle"]] fresh) = [] /\
  events (main_loop api_base None 20 [[job "idle"]; [job "idle"]] fresh) =
    [StuckEvent "idle" "2024-01-01T00:50:00+00:00" (Some "2024-01-01T00:26:00+00:00")].
Proof. vm_compute. repeat split. Qed.

End MonitorRuns.

(** ** The watcher *)

Module WatcherFacts.
Import PyStr PyStrSpec PyStrFacts Watcher WatcherSpec.

Local Open Scope nat_scope.

Lemma total_length_app (a b : list string) :
  total_length (a ++ b) = total_length a + total_length b.
Proof.
  induction a as [|x a IH]; [reflexivity|].
  cbn [app total_length]. rewrite IH. lia.
Qed.

Lemma lines_cons (c : ascii) (t : string) :
  lines (String c t) =
  if is_LF c then String c "" :: lines t
  else if is_CR c then
    match t with
    | String c' t' =>
        if is_LF c' then String c (String c' "") :: lines t'
        else String c "" :: lines t
    | EmptyString => [String c ""]
    end
  else
    match lines t with
    | [] => [String c ""]
    | l :: ls => String c l :: ls
    end.
Proof. reflexivity. Qed.

(** The lines of a text are the text cut in pieces: no byte is lost. *)
Lemma lines_total_length (s : string) : total_length (lines s) = String.length s.
Proof.
  enough (total_length (lines s) = String.length s /\
          forall c, total_length (lines (String c s)) = S (String.length s)) as [H _]
    by exact H.
  induction s as [|c' t [IH1 IH2]].
  - split; [reflexivity|]. intros c. rewrite lines_cons.
    destruct (is_LF c); [reflexivity|]. destruct (is_CR c); reflexivity.
  - split; [apply IH2|]. intros c. rewrite lines_cons.
    destruct (is_LF c); [cbn [total_length String.length]; rewrite IH2; reflexivity|].
    destruct (is_CR c).
    + destruct (is_LF c'); cbn [total_length String.length].
      * rewrite IH1. lia.
      * rewrite IH2. lia.
    + specialize (IH2 c'). cbn [String.length].
      destruct (lines (String c' t)) as [|l ls]; cbn [total_length String.length] in *; lia.
Qed.

Lemma seek_length (n : nat) (s : string) :
  String.length (seek n s) = String.length s - n.
Proof.
  revert s. induction n as [|n IH]; intros s; [cbn; lia|].
  destruct s as [|c t]; [reflexivity|]. cbn [seek String.length]. rewrite IH. lia.
Qed.

Lemma seek_app (a b : string) : seek (String.length a) (a +:+ b) = b.
Proof. induction a as [|c a IH]; [reflexivity|]. rewrite app_cons. exact IH. Qed.

Lemma seek_all (s : string) : seek (String.length s) s = "".
Proof. induction s as [|c s IH]; [reflexivity | exact IH]. Qed.

Lemma length_app_str (a b : string) :
  String.length (a +:+ b) = String.length a + String.length b.
Proof. induction a as [|c a IH]; [reflexivity|]. rewrite app_cons. cbn. now rewrite IH. Qed.

Lemma strip_nonempty (raw : string) : truthy (strip raw) = true -> 0 < String.length raw.
Proof. destruct raw; [discriminate | cbn; lia]. Qed.

Section Tail.
Context {Obj : Type} (json_loads : string -> Loaded Obj)
        (run_command : nat -> Obj -> Launch).

Local Abbreviation read_lines := (Watcher.read_lines json_loads run_command).
Local Abbreviation read_from := (Watcher.read_from json_loads run_command).
Local Abbreviation watch_cycle := (Watcher.watch_cycle json_loads run_command).
Local Abbreviation step := (Watcher.step json_loads run_command).
Local Abbreviation run := (Watcher.run json_loads run_command).

Lemma from_byte_weaken (pos pos' : nat) (d : Delivery Obj) :
  pos <= pos' -> from_byte pos' d -> from_byte pos d.
Proof. unfold from_byte. lia. Qed.

Lemma read_lines_cons (calls pos : nat) (raw : string) (rest : list string) :
  read_lines calls pos (raw :: rest) =
  let next := pos + String.length raw in
  if negb (truthy (strip raw)) then read_lines calls next rest
  else
    match json_loads (strip raw) with
    | JSONDecodeError => read_lines calls next rest
    | NotDict => Died []
    | Dict event =>
        let d := mkDelivery pos next event (run_command calls event) in
        match run_command calls event with
        | OSError => Abandoned [d]
        | Exited _ =>
            match read_lines (S calls) next rest with
            | Finished ds tell => Finished (d :: ds) tell
            | Died ds => Died (d :: ds)
            | Abandoned ds => Abandoned (d :: ds)
            end
        end
    end.
Proof. reflexivity. Qed.

Lemma read_lines_bounds (ls : list string) (calls pos : nat) :
  Forall (from_byte pos) (deliveries (read_lines calls pos ls)) /\
  match read_lines calls pos ls with
  | Finished ds tell =>
      tell = pos + total_length ls /\ Forall (fun d => end_byte d <= tell) ds
  | _ => True
  end.
Proof.
  revert calls pos. induction ls as [|raw rest IH]; intros calls pos.
  - cbn. repeat split; [constructor | lia | constructor].
  - rewrite read_lines_cons. cbv zeta.
    assert (forall ds : list (Delivery Obj),
              Forall (from_byte (pos + String.length raw)) ds ->
              Forall (from_byte pos) ds) as Hw.
    { intros ds Hds. eapply Forall_impl; [exact Hds|].
      intros d. apply from_byte_weaken. lia. }
    cbn [total_length].
    destruct (negb (truthy (strip raw))) eqn:Htr.
    { destruct (IH calls (pos + String.length raw)) as [H1 H2]. split; [now apply Hw|].
      destruct (read_lines calls _ rest); try exact I.
      destruct H2 as [-> H2]. split; [lia | exact H2]. }
    apply negb_false_iff, strip_nonempty in Htr.
    destruct (json_loads (strip raw)) as [|event|].
    + destruct (IH calls (pos + String.length raw)) as [H1 H2]. split; [now apply Hw|].
      destruct (read_lines calls _ rest); try exact I.
      destruct H2 as [-> H2]. split; [lia | exact H2].
    + destruct (run_command calls event) as [code|].
      * destruct (IH (S calls) (pos + String.length raw)) as [H1 H2].
        destruct (read_lines (S calls) _ rest) as [ds tell|ds|ds]; cbn [deliveries] in *.
        -- destruct H2 as [-> H2]. split; [|split; [lia|]].
           ++ constructor; [unfold from_byte; cbn; lia | now apply Hw].
           ++ constructor; [cbn; lia | exact H2].
        -- split; [|exact I]. constructor; [unfold from_byte; cbn; lia | now apply Hw].
        -- split; [|exact I]. constructor; [unfold from_byte; cbn; lia | now apply Hw].
      * split; [|exact I]. cbn [deliveries].
        constructor; [unfold from_byte; cbn; lia | constructor].
    + split; [constructor | exact I].
Qed.

Lemma read_from_bounds (calls offset : nat) (content : string) :
  Forall (from_byte offset) (deliveries (read_from calls offset content)) /\
  match read_from calls offset content with
  | Finished ds tell =>
      tell = Nat.max offset (String.length content) /\
      Forall (fun d => end_byte d <= tell) ds
  | _ => True
  end.
Proof.
  unfold Watcher.read_from.
  pose proof (read_lines_bounds (lines (seek offset content)) calls offset) as [Hd Hb].
  split; [exact Hd|].
  destruct (read_lines calls offset (lines (seek offset content))); try exact I.
  destruct Hb as [-> Hb]. rewrite lines_total_length, seek_length in *.
  replace (Nat.max offset (String.length content))
    with (offset + (String.length content - offset)) by lia.
  now split.
Qed.

Lemma read_from_tell (calls offset : nat) (content : string) ds tell :
  read_from calls offset content = Finished ds tell ->
  tell = Nat.max offset (String.length content).
Proof.
  intros H. pose proof (read_from_bounds calls offset content) as [_ Hb].
  rewrite H in Hb. now destruct Hb.
Qed.








Lemma run_app (before after : list Step) (p : Proc Obj) :
  run (before ++ after) p = run after (run before p).
Proof. apply fold_left_app. Qed.



Lemma seek_past_end (n : nat) (s : string) : String.length s <= n -> seek n s = "".
Proof.
  intros H. pose proof (seek_length n s) as L.
  destruct (seek n s); [reflexivity | cbn in L; lia].
Qed.

End Tail.

End WatcherFacts.

Module WatcherRuns.
Import PyStr Watcher WatcherSpec WatcherFacts DemoLog.

Local Open Scope nat_scope.

(** C1: the claim fails on a log whose last line was cut short.  The three
    full lines of the demo log end at byte 109 and are handled once each,
    but the pass sets the offset to the end of the file, 134, the fragment
    included, and persists it; when the fourth line is completed, the whole
    line parses to an event, yet the next run reads on from byte 134, in
    the middle of that line, and the handler is never run for it. *)
Lemma completed_line_is_never_delivered :
  let p1 := watch demo_json_loads demo_run_command [Present truncated_log] (boot None) in
  let p2 := watch demo_json_loads demo_run_command [Present completed_log] p1 in
  String.length three_lines = 109 /\
  map payload (handled p1) = [ev "completed" "J1"; ev "error" "J2"; ev "stuck" "J3"] /\
  state_file p1 = Some 134 /\
  lines completed_log =
    [dumps (ev "completed" "J1") +:+ LF; dumps (ev "error" "J2") +:+ LF;
     dumps (ev "stuck" "J3") +:+ LF; fourth_line +:+ LF] /\
  demo_json_loads (strip (fourth_line +:+ LF)) = Dict (ev "question" "J4") /\
  map payload (handled p2) = [ev "completed" "J1"; ev "error" "J2"; ev "stuck" "J3"] /\
  Forall (fun d => launch d = Exited 0) (handled p2) /\
  state_file p2 = Some (String.length completed_log) /\
  alive p2 = true.
Proof. vm_compute. repeat split; repeat constructor. Qed.

End WatcherRuns.

(** ** Cycles and runs of the monitor, its handler and the MCP server *)

Module MonitorCycleFacts.
Import PyStr PyStrSpec PyStrFacts Monitor MonitorSpec MonitorFacts MonitorMain MonitorCycleSpec.
Local Open Scope Z_scope.

Section Facts.
Context {rt : Runtime}.
Implicit Types (s : Sys) (j : string) (api : string) (token : option string) (mins : Z).

(** X1: [messages_actionable] returns the first question of the batch.
    When it returns a message, the batch splits around it into messages
    that are no questions, the message itself, which is one, and the rest;
    when it returns [None], no message of the batch is a question. *)
Theorem messages_actionable_finds_first_question (messages : list Message) :
  match messages_actionable messages with
  | Some m =>
      exists earlier later,
        messages = earlier ++ m :: later /\
        Forall (fun x => is_question_message x = false) earlier /\
        is_question_message m = true
  | None => Forall (fun x => is_question_message x = false) messages
  end.
Proof.
  induction messages as [|x rest IH]; cbn [messages_actionable]; [constructor|].
  destruct (is_question_message x) eqn:Hx.
  - exists [], rest. repeat split; [constructor | exact Hx].
  - destruct (messages_actionable rest) as [m|].
    + destruct IH as (earlier & later & -> & He & Hm).
      exists (x :: earlier), later. repeat split; [now constructor | exact Hm].
    + now constructor.
Qed.

Lemma persisted_entry (js : JobState) :
  let payload :=
    <["cursor" := cursor js]>
      (<["last_status" := last_status js]>
         (<["last_activity" := last_activity js]> (∅ : gmap string (option string)))) in
  mkJobState (dict_get payload "cursor") (dict_get payload "last_status")
             (dict_get payload "last_activity") = js.
Proof.
  cbv zeta. unfold dict_get.
  rewrite lookup_insert_eq.
  rewrite lookup_insert_ne, lookup_insert_eq by discriminate.
  rewrite lookup_insert_ne, lookup_insert_ne, lookup_insert_eq by discriminate.
  now destruct js.
Qed.

(** X2: the state file round trip of [main].  The dictionary "Persist
    state" writes is read back by "Load existing state" as the state
    dictionary it was written from, unset fields included; a state file that
    does not exist gives the empty dictionary; and an entry that is the empty
    object gives [JobState()]. *)
Theorem persisted_state_is_restored (st : gmap string JobState) :
  load_existing_state (Some (persist_state st)) = st /\
  load_existing_state None = ∅ /\
  forall file j, default ∅ file !! j = Some ∅ ->
    load_existing_state file !! j = Some JobState_default.
Proof.
  split; [|split].
  - unfold load_existing_state, persist_state. cbn [from_option id].
    rewrite <- map_fmap_compose. rewrite <- (map_fmap_id st) at 2.
    apply map_fmap_ext. intros j js _. apply persisted_entry.
  - reflexivity.
  - intros file j H. unfold load_existing_state. rewrite lookup_fmap, H. reflexivity.
Qed.


(** *** What a pass sends, appends and touches *)

Lemma touches_only_trans j s s' s'' :
  touches_only j s s' -> touches_only j s' s'' -> touches_only j s s''.
Proof.
  unfold touches_only. intros [H1 | (a & H1)] [H2 | (b & H2)]; rewrite H2, H1.
  - now left.
  - right. now exists b.
  - right. now exists a.
  - right. exists b. apply insert_insert_eq.
Qed.

Lemma did_refl j s : did j [] [] s s.
Proof. unfold did. rewrite !app_nil_r. repeat split. now left. Qed.

Lemma did_trans j r1 n1 r2 n2 s s' s'' :
  did j r1 n1 s s' -> did j r2 n2 s' s'' -> did j (r1 ++ r2) (n1 ++ n2) s s''.
Proof.
  intros (Hr1 & He1 & Ht1) (Hr2 & He2 & Ht2). split; [|split].
  - now rewrite Hr2, Hr1, app_assoc.
  - now rewrite He2, He1, app_assoc.
  - eapply touches_only_trans; eassumption.
Qed.

Lemma did_build j (st : gmap string JobState) reqs new n s :
  (st = state s \/ exists js, st = <[j := js]> (state s)) ->
  did j reqs new s (mkSys st (events s ++ new) (requests s ++ reqs) n).
Proof. intros H. repeat split. exact H. Qed.

Lemma did_quiet j (st : gmap string JobState) n s :
  (st = state s \/ exists js, st = <[j := js]> (state s)) ->
  did j [] [] s (mkSys st (events s) (requests s) n).
Proof. intros H. unfold did. cbn. rewrite !app_nil_r. repeat split. exact H. Qed.

Lemma did_append j (st : gmap string JobState) new n s :
  (st = state s \/ exists js, st = <[j := js]> (state s)) ->
  did j [] new s (mkSys st (events s ++ new) (requests s) n).
Proof. intros H. unfold did. cbn. rewrite app_nil_r. repeat split. exact H. Qed.

Lemma did_send j reqs n s :
  did j reqs [] s (mkSys (state s) (events s) (requests s ++ reqs) n).
Proof. unfold did. cbn. rewrite app_nil_r. repeat split. now left. Qed.

Lemma track_status_did j status s : did j [] [] s (snd (track_status j status s)).
Proof.
  rewrite track_status_eq. cbn [snd]. destruct (_ && _); [|apply did_refl].
  apply did_quiet. right. now eexists.
Qed.

Lemma cursor_advanced_did j mp s : did j [] [] s (cursor_advanced j mp s).
Proof.
  unfold cursor_advanced. destruct (truthy_opt _); [|apply did_refl].
  apply did_quiet. right. now eexists.
Qed.

Ltac rest_of_pass :=
  split; [cbn [length]; lia
         | split; [repeat (constructor; try reflexivity)
                  | first [congruence | reflexivity]]].

Lemma stuck_check_did mins j s :
  exists new, did j [] new s (snd (stuck_check mins j s)) /\
    (length new <= 1)%nat /\ Forall (event_of j) new /\
    (fst (stuck_check mins j s) <> Val tt -> new = []).
Proof.
  rewrite stuck_check_eq. cbv zeta.
  destruct (negb _); [exists []; split; [apply did_refl | rest_of_pass]|].
  destruct (fromisoformat _) as [[t|t]|]; cbn [fst snd].
  - destruct (total_seconds_ge _ _); cbn [fst snd].
    + eexists [_]. split; [apply did_append; right; now eexists | rest_of_pass].
    + exists []. split; [apply did_quiet; now left | rest_of_pass].
  - exists []. split; [apply did_quiet; now left | rest_of_pass].
  - exists []. split; [apply did_refl | rest_of_pass].
Qed.

Lemma handle_batch_did mins j mp s :
  exists new, did j [] new s (snd (handle_batch mins j mp s)) /\
    (length new <= 1)%nat /\ Forall (event_of j) new /\
    (fst (handle_batch mins j mp s) <> Val tt -> new = []).
Proof.
  rewrite handle_batch_eq.
  destruct (p_messages mp) as [messages|];
    [|exists []; split; [apply did_refl | rest_of_pass]].
  cbv zeta.
  pose proof (cursor_advanced_did j mp s) as Hadv.
  set (s1 := cursor_advanced j mp s) in *.
  assert (exists new, did j [] new s (snd (stuck_check mins j s1)) /\
            (length new <= 1)%nat /\ Forall (event_of j) new /\
            (fst (stuck_check mins j s1) <> Val tt -> new = [])) as Hstuck.
  { destruct (stuck_check_did mins j s1) as (new & Hd & Hrest).
    exists new. split; [|exact Hrest]. exact (did_trans _ _ _ _ _ _ _ _ Hadv Hd). }
  destruct (messages_actionable _) as [m|]; [|exact Hstuck].
  destruct (message_truthy m); [|exact Hstuck]. cbn [fst snd].
  eexists [_].
  split; [apply (did_trans _ _ _ _ _ _ _ _ Hadv); apply did_append; right; now eexists
         | rest_of_pass].
Qed.


Lemma check_messages_did api token mins j s :
  exists reqs new, did j reqs new s (snd (check_messages api token mins j s)) /\
    reqs = [messages_request api token j s] /\
    (length new <= 1)%nat /\ Forall (event_of j) new /\
    (fst (check_messages api token mins j s) <> Val tt -> new = []).
Proof.
  rewrite check_messages_eq.
  assert (did j [messages_request api token j s] [] s (messages_requested api token j s))
    as Hsend by apply did_send.
  assert (forall mp, exists reqs new,
            did j reqs new s (snd (handle_batch mins j mp (messages_requested api token j s))) /\
            reqs = [messages_request api token j s] /\
            (length new <= 1)%nat /\ Forall (event_of j) new /\
            (fst (handle_batch mins j mp (messages_requested api token j s)) <> Val tt ->
             new = [])) as Hb.
  { intros mp.
    destruct (handle_batch_did mins j mp (messages_requested api token j s))
      as (new & Hd & Hrest).
    exists [messages_request api token j s], new. split; [|split; [reflexivity | exact Hrest]].
    exact (did_trans _ _ _ _ _ _ _ _ Hsend Hd). }
  destruct (urlopen _ _); [apply Hb | apply Hb | apply Hb |].
  exists [messages_request api token j s], []. cbn [fst snd].
  split; [exact Hsend | split; [reflexivity | rest_of_pass]].
Qed.

Lemma terminal_status_some (status : option string) (st : string) :
  terminal_status status = Some st -> status = Some st /\ st ∈ ACTIONABLE_STATUSES.
Proof.
  unfold terminal_status. destruct status as [x|]; [|discriminate].
  destruct (in_actionable (Some x)) eqn:Hin; [|discriminate].
  intros [= ->]. split; [reflexivity|]. now apply bool_decide_eq_true in Hin.
Qed.

Lemma touches_only_present j s s' :
  is_Some (state s !! j) -> touches_only j s s' -> is_Some (state s' !! j).
Proof.
  intros H [-> | (js & ->)]; [exact H|]. rewrite lookup_insert_eq. now eexists.
Qed.

Lemma process_job_pass_of api token mins job j s :
  job_id job = Some j -> truthy j = true ->
  pass_of api token j s (process_job api token mins job s).
Proof.
  intros Hid Ht. unfold pass_of.
  assert (did j [build_request (job_status_url api j) token] [] s
            (status_requested api token j s)) as Hreq.
  { unfold did, status_requested. cbn. rewrite app_nil_r. repeat split.
    right. now eexists. }
  assert (is_Some (state (status_requested api token j s) !! j)) as Hpresent.
  { cbn. rewrite lookup_insert_eq. now eexists. }
  destruct (urlopen (tick s) (build_request (job_status_url api j) token))
    as [sp|code body|message|what] eqn:Hu.
  - rewrite (process_job_fetched _ _ _ _ _ _ _ Hid Ht Hu). unfold bind.
    pose proof (track_status_did j (p_status sp) (status_requested api token j s)) as Htr.
    pose proof (track_status_eq j (p_status sp) (status_requested api token j s)) as Heq.
    destruct (track_status j (p_status sp) (status_requested api token j s)) as [r s1].
    injection Heq as -> _. cbn [snd] in Htr.
    pose proof (did_trans _ _ _ _ _ _ _ _ Hreq Htr) as H1. cbn [app] in H1.
    assert (is_Some (state s1 !! j)) as Hp1
      by (destruct Htr as (_ & _ & Ht'); eapply touches_only_present; eassumption).
    unfold after_status. destruct (terminal_status _) as [st|] eqn:Hterm.
    + rewrite emit_terminal_eq. cbn [fst snd]. eexists [], [_].
      split; [apply (did_trans _ _ _ _ _ _ _ _ H1); apply did_append; now left|].
      split; [cbn; lia|]. split; [cbn; lia|]. split; [constructor|].
      split; [|split; [congruence | exact Hp1]].
      apply terminal_status_some in Hterm as [_ Hin].
      constructor; [|constructor]. split; [reflexivity|]. split; [exact Hin | reflexivity].
    + destruct (check_messages_did api token mins j s1) as (reqs & new & Hd & -> & Hl & Hf & Hr).
      exists [messages_request api token j s1], new.
      split; [exact (did_trans _ _ _ _ _ _ _ _ H1 Hd)|].
      split; [cbn; lia|]. split; [exact Hl|].
      split; [repeat constructor; now eexists|]. split; [exact Hf|]. split; [exact Hr|].
      destruct Hd as (_ & _ & Ht'). eapply touches_only_present; eassumption.
  - rewrite (process_job_http_error _ _ _ _ _ _ _ _ Hid Ht Hu). cbn [fst snd].
    eexists [], [_].
    split; [apply did_build; right; now eexists|].
    split; [cbn; lia|]. split; [cbn; lia|]. split; [constructor|].
    split; [repeat (constructor; try reflexivity)|]. split; [congruence|].
    cbn. rewrite lookup_insert_eq. now eexists.
  - rewrite (process_job_runtime_error _ _ _ _ _ _ _ Hid Ht Hu). cbn [fst snd].
    eexists [], [_].
    split; [apply did_build; right; now eexists|].
    split; [cbn; lia|]. split; [cbn; lia|]. split; [constructor|].
    split; [repeat (constructor; try reflexivity)|]. split; [congruence|].
    cbn. rewrite lookup_insert_eq. now eexists.
  - rewrite (process_job_failure _ _ _ _ _ _ _ Hid Ht Hu). cbn [fst snd].
    exists [], []. split; [exact Hreq|].
    split; [cbn; lia|]. split; [cbn; lia|]. split; [constructor|]. split; [constructor|].
    split; [reflexivity | exact Hpresent].
Qed.


(** *** Cycles and runs: what is kept *)

Lemma job_ids_cons (job : Job) (rest : list Job) :
  job_ids (job :: rest) =
  (if truthy_opt (job_id job) then default [] (fmap (fun j => [j]) (job_id job)) else [])
  ++ job_ids rest.
Proof.
  unfold job_ids. cbn.
  destruct (truthy_opt (job_id job)) eqn:Ht; [|reflexivity].
  destruct (job_id job); [reflexivity | discriminate].
Qed.

Section Listed.
Variables (api : string) (token : option string) (mins : Z).
Variable L : string -> Prop.

Lemma kept_refl s : kept L s s.
Proof.
  split; [exists []; split; [now rewrite app_nil_r | constructor]|]. now split.
Qed.

Lemma kept_trans s s' s'' : kept L s s' -> kept L s' s'' -> kept L s s''.
Proof.
  intros ((n1 & He1 & Hf1) & Ho1 & Hp1) ((n2 & He2 & Hf2) & Ho2 & Hp2).
  split; [|split].
  - exists (n1 ++ n2). split; [now rewrite He2, He1, app_assoc | now apply Forall_app].
  - intros j Hj. now rewrite Ho2, Ho1.
  - intros j Hj. auto.
Qed.

Lemma process_job_kept job s :
  Forall L (job_ids [job]) -> kept L s (snd (process_job api token mins job s)).
Proof.
  intros HL. rewrite job_ids_cons in HL.
  destruct (truthy_opt (job_id job)) eqn:Ht;
    [|rewrite process_job_skip by exact Ht; apply kept_refl].
  destruct (job_id job) as [j|] eqn:Hid; [|discriminate].
  cbn in HL. apply Forall_cons in HL as [HLj _].
  destruct (process_job_pass_of api token mins job j s Hid Ht)
    as (reqs & new & (_ & He & Htouch) & _ & _ & _ & Hnames & _ & _).
  split; [|split].
  - exists new. split; [exact He|]. eapply Forall_impl; [exact Hnames|].
    intros e [Hj Hk]. unfold names. now rewrite Hj.
  - intros j' Hj'. assert (j <> j') as Hne by (intros ->; contradiction).
    destruct Htouch as [-> | (js & ->)]; [reflexivity | now rewrite lookup_insert_ne].
  - intros j' Hj'. destruct Htouch as [-> | (js & ->)]; [exact Hj'|].
    destruct (decide (j = j')) as [->|Hne];
      [rewrite lookup_insert_eq; now eexists | now rewrite lookup_insert_ne].
Qed.

Lemma monitor_once_kept jobs s :
  Forall L (job_ids jobs) -> kept L s (snd (monitor_once jobs api token mins s)).
Proof.
  revert s. induction jobs as [|job rest IH]; intros s HL; [apply kept_refl|].
  rewrite job_ids_cons in HL. apply Forall_app in HL as [Hjob Hrest].
  assert (kept L s (snd (process_job api token mins job s))) as Hp.
  { apply process_job_kept. rewrite job_ids_cons. cbn [job_ids omap]. now rewrite app_nil_r. }
  rewrite monitor_once_cons.
  destruct (process_job api token mins job s) as [[u|e] s']; cbn [snd] in *; [|exact Hp].
  eapply kept_trans; [exact Hp | now apply IH].
Qed.

Lemma main_cycle_kept jobs s :
  Forall L (job_ids jobs) -> kept L s (main_cycle api token mins jobs s).
Proof.
  intros HL. unfold main_cycle. destruct jobs as [|job rest]; [apply kept_refl|].
  pose proof (monitor_once_kept (job :: rest) s HL) as Hm.
  destruct (monitor_once (job :: rest) api token mins s) as [[u|e] s']; cbn [snd] in Hm;
    [exact Hm|].
  eapply kept_trans; [exact Hm|]. cbn. split; [|now split].
  eexists [_]. split; [reflexivity|]. repeat constructor. cbn. now eexists _, _.
Qed.

Lemma main_loop_kept turns s :
  Forall (fun jobs => Forall L (job_ids jobs)) turns ->
  kept L s (main_loop api token mins turns s).
Proof.
  revert s. induction turns as [|jobs later IH]; intros s HL; [apply kept_refl|].
  apply Forall_cons in HL as [Hjobs Hlater]. cbn [main_loop].
  eapply kept_trans; [apply main_cycle_kept; exact Hjobs | apply IH; exact Hlater].
Qed.

End Listed.

Lemma listed_all (turns : list (list Job)) :
  Forall (fun jobs => Forall (listed turns) (job_ids jobs)) turns.
Proof.
  apply Forall_forall. intros jobs Hin. apply Forall_forall. intros j Hj.
  now exists jobs.
Qed.


(** X4: what one pass of [monitor_once] over a job with a non-empty id
    does.  It sends the status request and then at most one more request,
    for the messages of the same job; it appends at most one event, which
    names the job, and none when it ends with an exception; the job has an
    entry in the state dictionary afterwards; and the entry of every other
    job is what it was. *)
Theorem pass_sends_and_appends_little api token mins job j s :
  job_id job = Some j -> truthy j = true ->
  let result := process_job api token mins job s in
  exists reqs new,
    requests (snd result) =
      requests s ++ build_request (job_status_url api j) token :: reqs /\
    events (snd result) = events s ++ new /\
    (length reqs <= 1)%nat /\ (length new <= 1)%nat /\
    Forall (fun q => exists cur,
              q = build_request (job_messages_url api j cur) token) reqs /\
    Forall (fun e => event_job e = Some j) new /\
    (fst result <> Val tt -> new = []) /\
    is_Some (state (snd result) !! j) /\
    forall j', j' <> j -> state (snd result) !! j' = state s !! j'.
Proof.
  intros Hid Ht. cbv zeta.
  destruct (process_job_pass_of api token mins job j s Hid Ht)
    as (reqs & new & (Hr & He & Htouch) & Hlr & Hln & Hfr & Hfn & Hraised & Hpresent).
  exists reqs, new. repeat (split; [assumption|]).
  split; [eapply Forall_impl; [exact Hfn|]; now intros e [H _]|].
  repeat (split; [assumption|]).
  intros j' Hne. destruct Htouch as [-> | (js & ->)]; [reflexivity|].
  now rewrite lookup_insert_ne.
Qed.

Lemma monitor_once_counts api token mins jobs s :
  let result := monitor_once jobs api token mins s in
  exists reqs new,
    requests (snd result) = requests s ++ reqs /\
    events (snd result) = events s ++ new /\
    (length reqs <= 2 * length jobs)%nat /\
    (length new + (if fst result is Val _ then 0 else 1) <= length jobs)%nat /\
    (jobs = [] -> fst result = Val tt).
Proof.
  cbv zeta. revert s. induction jobs as [|job rest IH]; intros s.
  - exists [], []. cbn. rewrite !app_nil_r. repeat split; lia.
  - rewrite monitor_once_cons.
    assert (exists reqs new,
              requests (snd (process_job api token mins job s)) = requests s ++ reqs /\
              events (snd (process_job api token mins job s)) = events s ++ new /\
              (length reqs <= 2)%nat /\ (length new <= 1)%nat /\
              (fst (process_job api token mins job s) <> Val tt -> new = []))
      as (r1 & n1 & Hr1 & He1 & Hlr1 & Hln1 & Hraised).
    { destruct (truthy_opt (job_id job)) eqn:Ht.
      - destruct (job_id job) as [j|] eqn:Hid; [|discriminate].
        destruct (process_job_pass_of api token mins job j s Hid Ht)
          as (reqs & new & (Hr & He & _) & Hlr & Hln & _ & _ & Hraised & _).
        exists (build_request (job_status_url api j) token :: reqs), new.
        repeat split; try assumption. cbn [length]. lia.
      - rewrite process_job_skip by exact Ht. exists [], []. cbn.
        rewrite !app_nil_r. repeat split; lia. }
    destruct (process_job api token mins job s) as [[[]|e] s']; cbn [fst snd] in *.
    + destruct (IH s') as (r2 & n2 & Hr2 & He2 & Hlr2 & Hln2 & _).
      exists (r1 ++ r2), (n1 ++ n2).
      split; [now rewrite Hr2, Hr1, app_assoc|]. split; [now rewrite He2, He1, app_assoc|].
      rewrite !length_app. cbn [length].
      split; [lia|]. split; [|discriminate].
      destruct (fst (monitor_once rest api token mins s')); lia.
    + exists r1, n1. rewrite (Hraised ltac:(discriminate)) in *. cbn [length].
      repeat split; try assumption; try lia. discriminate.
Qed.

(** X5: one turn of the main loop over a job list sends at most two
    requests per entry and appends at most one event per entry, the
    [Monitor error] event of [main] included; what was logged and sent
    before stays in place. *)
Theorem cycle_appends_at_most_one_event_per_job api token mins jobs s :
  let s' := main_cycle api token mins jobs s in
  exists reqs new,
    requests s' = requests s ++ reqs /\
    events s' = events s ++ new /\
    (length reqs <= 2 * length jobs)%nat /\
    (length new <= length jobs)%nat.
Proof.
  cbv zeta. unfold main_cycle. destruct jobs as [|job rest].
  - exists [], []. rewrite !app_nil_r. repeat split; cbn; lia.
  - destruct (monitor_once_counts api token mins (job :: rest) s)
      as (reqs & new & Hr & He & Hlr & Hln & _).
    destruct (monitor_once (job :: rest) api token mins s) as [[u|e] s']; cbn [fst snd] in *.
    + exists reqs, new. repeat split; try assumption. lia.
    + exists reqs, (new ++ [ErrorEvent None (isoformat (clock (tick s')))
                               ("Monitor error: " +:+ str_exn e)]).
      cbn. rewrite He, Hr, length_app. cbn [length].
      split; [reflexivity|]. split; [now rewrite app_assoc|]. split; [exact Hlr|].
      cbn [length] in Hln. lia.
Qed.

(** X6: over any run of the main loop the event log only grows, and every
    event added either names the id of an entry of one of the job lists or
    is the event without a job whose message starts with [Monitor error: ],
    which [main] writes when an exception ends the cycle. *)
Theorem run_appends_events_of_listed_jobs api token mins turns s :
  let s' := main_loop api token mins turns s in
  exists new,
    events s' = events s ++ new /\
    Forall (fun e =>
              match event_job e with
              | Some j => listed turns j
              | None => exists at_ what,
                          e = ErrorEvent None at_ ("Monitor error: " +:+ what)
              end) new.
Proof.
  cbv zeta.
  destruct (main_loop_kept api token mins (listed turns) turns s (listed_all turns))
    as ((new & He & Hf) & _). exists new. split; [exact He|].
  eapply Forall_impl; [exact Hf|]. now intros e [_ H].
Qed.

(** X7: a job that is in none of the job lists keeps its entry of the
    state dictionary, or stays without one, over any run of the main loop. *)
Theorem run_leaves_unlisted_jobs_alone api token mins turns s j :
  ~ listed turns j ->
  state (main_loop api token mins turns s) !! j = state s !! j.
Proof.
  intros Hj.
  destruct (main_loop_kept api token mins (listed turns) turns s (listed_all turns))
    as (_ & H & _). now apply H.
Qed.

(** X8: the main loop never removes an entry of the state dictionary: the
    jobs tracked at the start of a run are tracked at its end, whether or not
    they are still in the job list. *)
Theorem run_never_removes_an_entry api token mins turns s :
  dom (state s) ⊆ dom (state (main_loop api token mins turns s)).
Proof.
  destruct (main_loop_kept api token mins (listed turns) turns s (listed_all turns))
    as (_ & _ & H).
  intros j Hj. apply elem_of_dom. apply H. now apply elem_of_dom.
Qed.


(** *** A terminal job at every poll *)

Lemma terminal_pass api token mins job j s sp st :
  job_id job = Some j -> truthy j = true ->
  urlopen (tick s) (build_request (job_status_url api j) token) = Ok200 sp ->
  p_status sp = Some st -> st ∈ ACTIONABLE_STATUSES ->
  exists s1 obs,
    process_job api token mins job s = (Val tt, s1) /\
    events s1 =
      events s ++ [StatusEvent (if bool_decide (st = "COMPLETED") then "completed" else "error")
                               j st obs sp].
Proof.
  intros Hid Ht Hu Hs Hin.
  rewrite (process_job_fetched _ _ _ _ _ _ _ Hid Ht Hu). unfold bind.
  pose proof (track_status_events j (p_status sp) (status_requested api token j s)) as Hev.
  pose proof (track_status_eq j (p_status sp) (status_requested api token j s)) as Heq.
  destruct (track_status j (p_status sp) (status_requested api token j s)) as [r s1].
  injection Heq as -> _. cbn [snd] in Hev.
  unfold after_status. rewrite Hs, (terminal_status_in _ Hin), emit_terminal_eq.
  eexists _, _. split; [reflexivity|]. cbn [events]. now rewrite Hev.
Qed.

Lemma monitor_once_appends api token mins jobs s :
  exists new, events (snd (monitor_once jobs api token mins s)) = events s ++ new.
Proof.
  destruct (monitor_once_counts api token mins jobs s) as (reqs & new & _ & He & _).
  now exists new.
Qed.

(** X9: a terminal status is reported at every poll.  While the API
    answers the status request of a job with the same terminal status and
    the job is the first entry of the job list, every turn of the main loop
    appends one more status event for it: the log gains, in order and among
    whatever else is logged, as many such events as there are turns. *)
Theorem terminal_job_is_reported_at_every_poll api token mins job j sp st turns s :
  job_id job = Some j -> truthy j = true ->
  (forall n, urlopen n (build_request (job_status_url api j) token) = Ok200 sp) ->
  p_status sp = Some st -> st ∈ ACTIONABLE_STATUSES ->
  Forall (fun jobs => exists rest, jobs = job :: rest) turns ->
  let kind := if bool_decide (st = "COMPLETED") then "completed" else "error" in
  exists reports new,
    events (main_loop api token mins turns s) = events s ++ new /\
    reports `sublist_of` new /\
    length reports = length turns /\
    Forall (fun e => exists obs, e = StatusEvent kind j st obs sp) reports.
Proof.
  intros Hid Ht Hu Hs Hin Hturns. cbv zeta. revert s.
  induction Hturns as [|jobs later (rest & ->) _ IH]; intros s.
  - exists [], []. cbn. rewrite app_nil_r. repeat split; constructor.
  - cbn [main_loop].
    destruct (terminal_pass api token mins job j s sp st Hid Ht (Hu _) Hs Hin)
      as (s1 & obs & Hpass & He1).
    assert (exists more, events (main_cycle api token mins (job :: rest) s) =
                         events s1 ++ more) as (more & Hmore).
    { unfold main_cycle. rewrite monitor_once_cons, Hpass.
      destruct (monitor_once_appends api token mins rest s1) as (new & Hnew).
      destruct (monitor_once rest api token mins s1) as [[u|e] s2]; cbn [snd] in Hnew.
      - now exists new.
      - eexists (new ++ [_]). cbn. now rewrite Hnew, app_assoc. }
    destruct (IH (main_cycle api token mins (job :: rest) s)) as (reports & new & He & Hsub & Hlen & Hall).
    set (report := StatusEvent (if bool_decide (st = "COMPLETED") then "completed" else "error")
                               j st obs sp) in *.
    exists (report :: reports), (report :: more ++ new).
    split; [rewrite He, Hmore, He1, <- !app_assoc; reflexivity|].
    split; [apply sublist_skip, sublist_inserts_l, Hsub|].
    split; [cbn; now rewrite Hlen|].
    constructor; [now exists obs | exact Hall].
Qed.

(** *** Questions and the stuck timer *)



(** *** A failed messages fetch *)



(** *** Settings *)

(** X3: how [main] settles its settings from [parse_args] and the
    configuration file.  When [main] goes on, the stuck threshold, the poll
    interval and the state path are the command line's; with the option left
    out they are the defaults of [parse_args], whatever the configuration
    file holds; the file's [stuck_minutes], [monitor_poll_seconds] and
    [monitor_state_path] are read only when the option is given as [0] or as
    the empty string.  The API base is the option, else the environment
    variable, else the default, and the file's only when that is empty.  The
    jobs and events paths are the command line's when given and not empty,
    else the file's, and [main] returns 1 exactly when one of the two is
    missing or empty in both. *)
Theorem configuration_is_consulted_only_for_zero_or_empty_options
    (env : option string) (argv : CommandLine) (config : Config) :
  let chosen := resolve (parse_args env argv) config in
  (forall st, chosen = Some st ->
     stuck_minutes st =
       match opt_stuck_minutes argv with
       | None => DEFAULT_STUCK_MINUTES
       | Some given =>
           if bool_decide (given = 0)
           then default DEFAULT_STUCK_MINUTES (cfg_stuck_minutes config) else given
       end /\
     poll_seconds st =
       match opt_poll argv with
       | None => DEFAULT_POLL_SECONDS
       | Some given =>
           if bool_decide (given = 0)
           then default DEFAULT_POLL_SECONDS (cfg_monitor_poll_seconds config) else given
       end /\
     state_path st =
       match opt_state argv with
       | None => DEFAULT_STATE_PATH
       | Some given =>
           if truthy given then given
           else default DEFAULT_STATE_PATH (cfg_monitor_state_path config)
       end /\
     api_base st =
       (let given :=
          default (default DEFAULT_API_BASE env) (opt_api_base argv) in
        if truthy given then given
        else default DEFAULT_API_BASE (cfg_api_base config)) /\
     truthy (jobs_path st) = true /\ truthy (events_path st) = true /\
     Some (jobs_path st) =
       (if truthy_opt (opt_jobs argv) then opt_jobs argv else cfg_jobs_path config) /\
     Some (events_path st) =
       (if truthy_opt (opt_events argv) then opt_events argv else cfg_events_path config)) /\
  (chosen = None <->
     (truthy_opt (opt_jobs argv) = false /\ truthy_opt (cfg_jobs_path config) = false) \/
     (truthy_opt (opt_events argv) = false /\ truthy_opt (cfg_events_path config) = false)).
Proof.
  cbv zeta. unfold resolve, parse_args.
  cbn [args_jobs args_events args_state args_poll args_stuck_minutes args_api_base].
  set (jp := if truthy_opt (opt_jobs argv) then opt_jobs argv else cfg_jobs_path config).
  set (ep := if truthy_opt (opt_events argv) then opt_events argv else cfg_events_path config).
  assert (truthy_opt jp = false <->
          truthy_opt (opt_jobs argv) = false /\ truthy_opt (cfg_jobs_path config) = false)
    as Hjp.
  { unfold jp. destruct (truthy_opt (opt_jobs argv)) eqn:H; [rewrite H|]; intuition congruence. }
  assert (truthy_opt ep = false <->
          truthy_opt (opt_events argv) = false /\ truthy_opt (cfg_events_path config) = false)
    as Hep.
  { unfold ep. destruct (truthy_opt (opt_events argv)) eqn:H; [rewrite H|]; intuition congruence. }
  destruct (truthy_opt jp) eqn:Hj; cbn [negb orb].
  - destruct (truthy_opt ep) eqn:He; cbn [negb].
    + split; [|split; [discriminate | intros [H|H]; [apply Hjp in H | apply Hep in H]; discriminate]].
      intros st [= <-].
      cbn [stuck_minutes poll_seconds state_path jobs_path events_path api_base].
      destruct jp as [a|]; [|discriminate]. destruct ep as [b|]; [|discriminate].
      cbn [from_option id].
      repeat split; try assumption.
      * unfold or_int. now destruct (opt_stuck_minutes argv).
      * unfold or_int. now destruct (opt_poll argv).
      * unfold or_str. now destruct (opt_state argv).
    + split; [discriminate|]. split; [intros _; right; now apply Hep | reflexivity].
  - split; [discriminate|]. split; [intros _; left; now apply Hjp | reflexivity].
Qed.

(** *** The handler of each event *)

Lemma kind_fits_route (e : Event) :
  kind_fits e -> Handler.route (Some (event_kind e)) = handler_of e.
Proof.
  destruct e as [| kind j0 status obs payload | |]; try reflexivity.
  intros [_ ->]. cbn [event_kind handler_of]. now destruct (bool_decide _).
Qed.

(** X12: every event the monitor writes has a handler.  For each event
    appended by any run of the main loop, the dispatch of the event
    handler's [main] on its [event] field picks [handle_completed] for a
    status event with status [COMPLETED], [handle_error] for the other
    status events and for error events, [handle_question] and
    [handle_stuck] for question and stuck events, and never falls through
    to the unhandled case; with an MCP command configured the handler then
    calls [jules_get_artifacts] for a completed job, [jules_get_job] for a
    stuck one and nothing for the others, and without one it calls nothing. *)
Theorem every_event_has_a_handler api token mins turns s (setting : Handler.McpSetting) :
  Forall (fun e =>
            Handler.route (Some (event_kind e)) = handler_of e /\
            Handler.main (Some (event_kind e)) (event_job e) setting =
              match Handler.mcp_command_of setting, e with
              | [], _ => []
              | _, StatusEvent _ job status _ _ =>
                  if bool_decide (status = "COMPLETED")
                  then [Handler.mkToolCall "jules_get_artifacts" (Some job)] else []
              | _, StuckEvent job _ _ => [Handler.mkToolCall "jules_get_job" (Some job)]
              | _, _ => []
              end)
         (appended s (main_loop api token mins turns s)).
Proof.
  destruct (main_loop_kept api token mins (fun _ => True) turns s)
    as ((new & He & Hf) & _).
  { apply Forall_forall. intros jobs _. apply Forall_forall. now intros. }
  unfold appended. rewrite He, drop_app_length.
  eapply Forall_impl; [exact Hf|]. intros e [Hk _].
  pose proof (kind_fits_route e Hk) as Hr. split; [exact Hr|].
  unfold Handler.main. rewrite Hr. unfold Handler.run_handler.
  destruct (Handler.mcp_command_of setting) as [|c cs]; [reflexivity|].
  destruct e as [| kind j0 status obs payload | |]; try reflexivity.
  cbn [handler_of event_job]. now destruct (bool_decide _).
Qed.


(** *** The MCP server *)

(** X13: [handle_tool_call] asks for a [job_id] before it looks at the
    tool name.  For every name other than [jules_create_job] and
    [jules_register_job], a call without a [job_id], or with an empty one,
    ends in [ValueError("job_id is required")]: so does [jules_list_jobs],
    which is given a [repo], and so does a name that is no tool at all. *)
Theorem job_id_is_required_by_every_other_tool (API_BASE : string)
    (name : option string) (arguments : McpServer.ToolArguments) :
  name <> Some "jules_create_job" -> name <> Some "jules_register_job" ->
  truthy_opt (McpServer.arg_job_id arguments) = false ->
  McpServer.handle_tool_call API_BASE name arguments =
    McpServer.ValueError "job_id is required".
Proof.
  intros H1 H2 Hj. unfold McpServer.handle_tool_call.
  rewrite !bool_decide_false by assumption. now rewrite Hj.
Qed.

Lemma job_ids_truthy (jobs : list Job) :
  Forall (fun j => truthy j = true) (job_ids jobs).
Proof.
  induction jobs as [|job rest IH]; [constructor|].
  rewrite job_ids_cons. apply Forall_app. split; [|exact IH].
  destruct (truthy_opt (job_id job)) eqn:Ht; [|constructor].
  destruct (job_id job) as [j|]; [|discriminate]. now repeat constructor.
Qed.

(** X14: from the monitor's log to the API.  Every tool call the event
    handler makes for an event appended by a run of the main loop carries
    the non-empty id of the event's job and is accepted by
    [handle_tool_call], which turns it into one [GET] request without a
    body, to a URL built by [url_join] from the server's own [API_BASE]:
    for a stuck event with the path [jobs/<job_id>], for a completed event
    with the path [jobs/<job_id>/artifacts].  The server's [API_BASE] and
    the monitor's [api_base] are set independently; [url_join] and
    [job_status_url] build the same URL from the same base, so the request
    for a stuck event goes to the URL the monitor polls for the status of
    that job when the two bases are equal. *)
Theorem handler_calls_reach_the_job_endpoints api token mins turns s
    (setting : Handler.McpSetting) (API_BASE : string) :
  Forall (fun e =>
            Forall (fun call =>
                      exists j,
                        event_job e = Some j /\ truthy j = true /\
                        McpServer.handle_tool_call API_BASE (Some (Handler.tool call))
                          (McpServer.job_id_only (Handler.tool_job_id call)) =
                        McpServer.request_json
                          (McpServer.url_join API_BASE
                             (if bool_decide (event_kind e = "stuck")
                              then "jobs/" +:+ j
                              else "jobs/" +:+ j +:+ "/artifacts"))
                          "GET" McpServer.no_body)
                   (Handler.main (Some (event_kind e)) (event_job e) setting))
         (appended s (main_loop api token mins turns s)) /\
  (forall base j, McpServer.url_join base ("jobs/" +:+ j) = job_status_url base j).
Proof.
  split; [|reflexivity].
  destruct (main_loop_kept api token mins (fun j => truthy j = true) turns s)
    as ((new & He & Hf) & _).
  { apply Forall_forall. intros jobs _. apply job_ids_truthy. }
  unfold appended. rewrite He, drop_app_length.
  eapply Forall_impl; [exact Hf|]. intros e [Hk Hname].
  unfold Handler.main. rewrite (kind_fits_route e Hk). unfold Handler.run_handler.
  destruct (Handler.mcp_command_of setting) as [|c cs]; [constructor|].
  destruct e as [j0 obs msg | kind j0 status obs payload | j0 obs msg | j0 obs la];
    cbn [handler_of event_job event_kind] in *; try solve [constructor].
  - destruct Hk as [_ ->].
    destruct (bool_decide (status = "COMPLETED")); [|constructor].
    constructor; [|constructor].
    exists j0. split; [reflexivity|]. split; [exact Hname|].
    rewrite bool_decide_false by discriminate.
    unfold McpServer.handle_tool_call, McpServer.job_id_only.
    cbn [Handler.tool Handler.tool_job_id McpServer.arg_job_id truthy_opt from_option id].
    rewrite Hname. cbn [negb].
    rewrite !bool_decide_false by discriminate. now rewrite bool_decide_true.
  - constructor; [|constructor].
    exists j0. split; [reflexivity|]. split; [exact Hname|].
    rewrite bool_decide_true by reflexivity.
    unfold McpServer.handle_tool_call, McpServer.job_id_only.
    cbn [Handler.tool Handler.tool_job_id McpServer.arg_job_id truthy_opt from_option id].
    rewrite Hname. cbn [negb].
    rewrite !bool_decide_false by discriminate. now rewrite bool_decide_true.
Qed.

End Facts.
End MonitorCycleFacts.

Module MonitorCycleRuns.
Import PyStr PyStrSpec PyStrFacts Monitor MonitorSpec MonitorFacts MonitorMain.
Import MonitorCycleSpec MonitorCycleFacts MonitorRuns Demo DemoMore.

Local Open Scope Z_scope.

#[local] Existing Instance demo_runtime.

(** The pass over the demo's [asking] job. *)
Lemma pass_sends_and_appends_little_witness :
  let result := process_job Demo.api_base None 20 (job "asking") fresh in
  exists reqs new,
    requests (snd result) =
      requests fresh ++ build_request (job_status_url Demo.api_base "asking") None :: reqs /\
    events (snd result) = events fresh ++ new /\
    (length reqs <= 1)%nat /\ (length new <= 1)%nat /\
    Forall (fun q => exists cur,
              q = build_request (job_messages_url Demo.api_base "asking" cur) None) reqs /\
    Forall (fun e => event_job e = Some "asking") new /\
    (fst result <> Val tt -> new = []) /\
    is_Some (state (snd result) !! "asking") /\
    forall j', j' <> "asking" -> state (snd result) !! j' = state fresh !! j'.
Proof.
  apply (pass_sends_and_appends_little Demo.api_base None 20 (job "asking") "asking" fresh
           eq_refl eq_refl).
Defined.

(** Two turns over [asking] and [done] leave the entry of [idle] alone. *)
Lemma run_leaves_unlisted_jobs_alone_witness :
  state (main_loop Demo.api_base None 20 [[job "asking"]; [job "done"]] idle_since_midnight)
    !! "idle" =
  Some (mkJobState None (Some "RUNNING") (Some "2024-01-01T00:00:00+00:00")).
Proof.
  rewrite (run_leaves_unlisted_jobs_alone Demo.api_base None 20
             [[job "asking"]; [job "done"]] idle_since_midnight "idle"); [reflexivity|].
  intros (jobs & Hin & Hj).
  apply elem_of_cons in Hin as [-> | Hin];
    [apply list_elem_of_singleton in Hj; discriminate|].
  apply list_elem_of_singleton in Hin as ->.
  apply list_elem_of_singleton in Hj; discriminate.
Defined.

(** The completed job of the demo is reported at both of two polls. *)
Lemma terminal_job_is_reported_at_every_poll_witness :
  exists reports new,
    events (main_loop Demo.api_base None 20 [[job "done"]; [job "done"; job "idle"]] fresh) =
      events fresh ++ new /\
    reports `sublist_of` new /\
    length reports = 2%nat /\
    Forall (fun e => exists obs,
              e = StatusEvent "completed" "done" "COMPLETED" obs
                    (mkPayload (Some "COMPLETED") None None [("title", "Fix login")]))
           reports.
Proof.
  apply (terminal_job_is_reported_at_every_poll (rt := demo_runtime)
           Demo.api_base None 20 (job "done") "done"
           (mkPayload (Some "COMPLETED") None None [("title", "Fix login")]) "COMPLETED"
           [[job "done"]; [job "done"; job "idle"]] fresh eq_refl eq_refl
           ltac:(intros n; vm_compute; reflexivity) eq_refl (list_elem_of_here _ _)).
  repeat constructor; eexists; reflexivity.
Defined.



(** [jules_list_jobs] with a repository and a limit, and no [job_id]. *)
Lemma job_id_is_required_by_every_other_tool_witness :
  McpServer.handle_tool_call Demo.api_base (Some "jules_list_jobs")
    (McpServer.mkToolArguments None None (Some "owner/repo") None (Some 10)) =
  McpServer.ValueError "job_id is required".
Proof.
  apply (job_id_is_required_by_every_other_tool Demo.api_base (Some "jules_list_jobs")
           (McpServer.mkToolArguments None None (Some "owner/repo") None (Some 10)));
    [discriminate | discriminate | reflexivity].
Defined.

End MonitorCycleRuns.

(** ** Passes of the watcher *)

Module WatcherPassFacts.
Import PyStr PyStrSpec PyStrFacts Watcher WatcherSpec WatcherFacts WatcherPassSpec.

Local Open Scope nat_scope.

Lemma lines_nonempty (c : ascii) (t : string) : lines (String c t) <> [].
Proof.
  rewrite lines_cons. destruct (is_LF c); [discriminate|].
  destruct (is_CR c).
  - destruct t as [|c' t']; [discriminate|]. now destruct (is_LF c').
  - now destruct (lines t).
Qed.

Lemma lines_app_LF (a b : string) :
  lines (a +:+ String "010"%char b) = lines (a +:+ String "010"%char "") ++ lines b.
Proof.
  enough ((lines (a +:+ String "010"%char b) =
             lines (a +:+ String "010"%char "") ++ lines b) /\
          forall c, lines (String c a +:+ String "010"%char b) =
                      lines (String c a +:+ String "010"%char "") ++ lines b)
    as [H _] by exact H.
  induction a as [|c' a [IH1 IH2]].
  - assert (lines ("" +:+ String "010"%char b) =
            lines ("" +:+ String "010"%char "") ++ lines b) as H0 by reflexivity.
    split; [exact H0|]. intros c. rewrite !app_cons, !lines_cons.
    destruct (is_LF c); [now rewrite H0|].
    destruct (is_CR c); [reflexivity|].
    now rewrite H0.
  - split; [apply IH2|]. intros c.
    rewrite (app_cons c), (app_cons c), (lines_cons c), (lines_cons c).
    destruct (is_LF c); [now rewrite IH2|].
    destruct (is_CR c).
    + rewrite !app_cons. destruct (is_LF c'); [now rewrite IH1|].
      rewrite <- !app_cons. now rewrite IH2.
    + rewrite IH2. rewrite app_cons.
      destruct (lines (String c' (a +:+ String "010"%char ""))) as [|l ls] eqn:Hl;
        [now apply lines_nonempty in Hl|].
      reflexivity.
Qed.

Lemma lines_app_whole (a b : string) :
  whole_lines a -> lines (a +:+ b) = lines a ++ lines b.
Proof.
  intros [-> | (a' & ->)]; [reflexivity|].
  rewrite app_assoc_str, app_cons. apply lines_app_LF.
Qed.

Lemma seek_app_le (n : nat) (a b : string) :
  n <= String.length a -> seek n (a +:+ b) = seek n a +:+ b.
Proof.
  revert a. induction n as [|n IH]; intros a H; [reflexivity|].
  destruct a as [|c a]; [cbn in H; lia|].
  rewrite app_cons. cbn [seek]. apply IH. cbn in H. lia.
Qed.

Lemma seek_app_ge (n : nat) (a b : string) :
  String.length a <= n -> seek n (a +:+ b) = seek (n - String.length a) b.
Proof.
  revert n. induction a as [|c a IH]; intros n H; [now rewrite Nat.sub_0_r|].
  destruct n as [|n]; [cbn in H; lia|].
  rewrite app_cons. cbn [seek String.length Nat.sub]. apply IH. cbn in H. lia.
Qed.

Section Tail.
Context {Obj : Type} (json_loads : string -> Loaded Obj)
        (run_command : nat -> Obj -> Launch).

Local Abbreviation parsed := (WatcherPassSpec.parsed json_loads).
Local Abbreviation fatal := (WatcherPassSpec.fatal json_loads).
Local Abbreviation delivery_of_line := (WatcherPassSpec.delivery_of_line json_loads).
Local Abbreviation read_lines := (Watcher.read_lines json_loads run_command).
Local Abbreviation read_from := (Watcher.read_from json_loads run_command).
Local Abbreviation watch_cycle := (Watcher.watch_cycle json_loads run_command).
Local Abbreviation run := (Watcher.run json_loads run_command).
Local Abbreviation watch := (Watcher.watch json_loads run_command).

(** Reading two runs of lines one after the other. *)
Lemma read_lines_app (l1 l2 : list string) (calls pos : nat) :
  read_lines calls pos (l1 ++ l2) =
  match read_lines calls pos l1 with
  | Finished ds tell =>
      match read_lines (calls + length ds) tell l2 with
      | Finished ds2 tell2 => Finished (ds ++ ds2) tell2
      | Died ds2 => Died (ds ++ ds2)
      | Abandoned ds2 => Abandoned (ds ++ ds2)
      end
  | Died ds => Died ds
  | Abandoned ds => Abandoned ds
  end.
Proof.
  revert calls pos. induction l1 as [|raw rest IH]; intros calls pos.
  - cbn [app Watcher.read_lines length]. rewrite Nat.add_0_r.
    now destruct (read_lines calls pos l2).
  - cbn [app]. rewrite !read_lines_cons. cbv zeta.
    destruct (negb (truthy (strip raw))); [apply IH|].
    destruct (json_loads (strip raw)) as [|event|]; [apply IH | | reflexivity].
    destruct (run_command calls event) as [code|]; [|reflexivity].
    rewrite IH.
    destruct (read_lines (S calls) (pos + String.length raw) rest) as [ds tell|ds|ds];
      [|reflexivity|reflexivity].
    cbn [length]. rewrite Nat.add_succ_r. cbn [Nat.add].
    now destruct (read_lines (S (calls + length ds)) tell l2).
Qed.

Lemma delivery_of_line_cons (pos : nat) (raw : string) (rest : list string)
    (d : Delivery Obj) :
  delivery_of_line (pos + String.length raw) rest d -> delivery_of_line pos (raw :: rest) d.
Proof.
  intros (i & raw' & Hi & Hf & He & Hp). exists (S i), raw'.
  split; [exact Hi|]. split; [|split; [exact He | exact Hp]].
  cbn [take total_length]. lia.
Qed.

Section Started.

(** The handler can always be started: no call of [run_command] raises. *)
Hypothesis always_started : forall calls event, run_command calls event <> OSError.

(** A run of lines none of which is fatal is read to its end. *)
Lemma read_lines_harmless (ls : list string) (calls pos : nat) :
  Forall (fun raw => fatal raw = false) ls ->
  exists ds,
    read_lines calls pos ls = Finished ds (pos + total_length ls) /\
    map payload ds = omap parsed ls /\
    Forall (delivery_of_line pos ls) ds.
Proof.
  intros H. revert calls pos. induction H as [|raw rest Hraw _ IH]; intros calls pos.
  - exists []. cbn. rewrite Nat.add_0_r. repeat split; constructor.
  - rewrite read_lines_cons. cbv zeta.
    cbn [total_length]. rewrite Nat.add_assoc.
    unfold WatcherPassSpec.fatal in Hraw.
    assert (omap parsed (raw :: rest) =
            match parsed raw with Some e => e :: omap parsed rest | None => omap parsed rest end)
      as Homap by reflexivity.
    rewrite Homap. unfold WatcherPassSpec.parsed at 1 2.
    assert (forall ds, Forall (delivery_of_line (pos + String.length raw) rest) ds ->
                       Forall (delivery_of_line pos (raw :: rest)) ds) as Hpos'.
    { intros ds Hpos. eapply Forall_impl; [exact Hpos|].
      intros d. apply delivery_of_line_cons. }
    destruct (truthy (strip raw)) eqn:Htr; cbn [negb andb] in *.
    + destruct (json_loads (strip raw)) as [|event|] eqn:Hload; [| |discriminate].
      * destruct (IH calls (pos + String.length raw)) as (ds & Hds & Hmap & Hpos).
        exists ds. rewrite Hds. split; [reflexivity|]. split; [exact Hmap | now apply Hpos'].
      * destruct (run_command calls event) as [code|] eqn:Hrun;
          [|now destruct (always_started calls event)].
        destruct (IH (S calls) (pos + String.length raw)) as (ds & Hds & Hmap & Hpos).
        exists (mkDelivery pos (pos + String.length raw) event (Exited code) :: ds).
        rewrite Hds. split; [reflexivity|]. split; [cbn; now rewrite Hmap|].
        constructor; [|now apply Hpos'].
        exists 0, raw. cbn. rewrite Nat.add_0_r.
        unfold WatcherPassSpec.parsed. rewrite Htr, Hload. now repeat split.
    + destruct (IH calls (pos + String.length raw)) as (ds & Hds & Hmap & Hpos).
      exists ds. rewrite Hds. split; [reflexivity|]. split; [exact Hmap | now apply Hpos'].
Qed.

(** A fatal line ends the pass after the lines before it. *)
Lemma read_lines_fatal (before after : list string) (raw : string) (calls pos : nat) :
  Forall (fun l => fatal l = false) before -> fatal raw = true ->
  exists ds,
    read_lines calls pos (before ++ raw :: after) = Died ds /\
    map payload ds = omap parsed before.
Proof.
  intros Hbefore Hraw.
  destruct (read_lines_harmless before calls pos Hbefore) as (ds & Hds & Hmap & _).
  exists ds. split; [|exact Hmap].
  rewrite read_lines_app, Hds, read_lines_cons. cbv zeta.
  unfold WatcherPassSpec.fatal in Hraw. apply andb_true_iff in Hraw as [-> Hload].
  cbn [negb]. destruct (json_loads (strip raw)); try discriminate.
  now rewrite app_nil_r.
Qed.

(** No pass is left through [except IOError]. *)
Lemma read_lines_not_abandoned (ls : list string) (calls pos : nat) ds :
  read_lines calls pos ls <> Abandoned ds.
Proof.
  revert calls pos ds. induction ls as [|raw rest IH]; intros calls pos ds;
    [discriminate|].
  rewrite read_lines_cons. cbv zeta.
  destruct (negb (truthy (strip raw))); [apply IH|].
  destruct (json_loads (strip raw)) as [|event|]; [apply IH | | discriminate].
  destruct (run_command calls event) as [code|] eqn:Hrun;
    [|now destruct (always_started calls event)].
  pose proof (IH (S calls) (pos + String.length raw)) as Hrest.
  destruct (read_lines (S calls) (pos + String.length raw) rest) as [ds' tell|ds'|ds'];
    [discriminate | discriminate | now destruct (Hrest ds')].
Qed.

(** One round of a watcher that meets a fatal line, and its restart. *)
Lemma fatal_round (content : string) (before after : list string) (raw : string)
    (p : Proc Obj) :
  alive p = true -> offset p = load_state (state_file p) ->
  lines (seek (offset p) content) = before ++ raw :: after ->
  Forall (fun l => fatal l = false) before -> fatal raw = true ->
  exists ds,
    map payload ds = omap parsed before /\
    run [Poll (Present content)] p =
      mkProc (offset p) (state_file p) (handled p ++ ds) false /\
    run [Poll (Present content); Restart] p =
      mkProc (offset p) (state_file p) (handled p ++ ds) true.
Proof.
  intros Ha Ho Hlines Hbefore Hraw.
  destruct (read_lines_fatal before after raw (length (handled p)) (offset p) Hbefore Hraw)
    as (ds & Hds & Hmap).
  rewrite <- Hlines in Hds.
  exists ds. split; [exact Hmap|].
  unfold Watcher.run. cbn [fold_left Watcher.step]. rewrite Ha.
  cbn [Watcher.watch_cycle]. unfold Watcher.read_from. rewrite Hds.
  split; [reflexivity|]. unfold Watcher.start. cbn [state_file handled]. now rewrite <- Ho.
Qed.

Lemma fatal_rounds (content : string) (before after : list string) (raw : string)
    (k : nat) (p : Proc Obj) :
  alive p = true -> offset p = load_state (state_file p) ->
  lines (seek (offset p) content) = before ++ raw :: after ->
  Forall (fun l => fatal l = false) before -> fatal raw = true ->
  exists ds,
    map payload ds = concat (replicate k (omap parsed before)) /\
    run (concat (replicate k [Poll (Present content); Restart])) p =
      mkProc (offset p) (state_file p) (handled p ++ ds) true.
Proof.
  revert p. induction k as [|k IH]; intros p Ha Ho Hlines Hbefore Hraw.
  - exists []. split; [reflexivity|]. cbn [replicate concat]. rewrite app_nil_r.
    destruct p as [o f h a]. cbn in *. now subst.
  - destruct (fatal_round content before after raw p Ha Ho Hlines Hbefore Hraw)
      as (ds & Hmap & _ & Hround).
    cbn [replicate concat]. rewrite run_app, Hround.
    destruct (IH (mkProc (offset p) (state_file p) (handled p ++ ds) true))
      as (ds' & Hmap' & Hrun); [reflexivity | exact Ho | exact Hlines | exact Hbefore
                                | exact Hraw |].
    exists (ds ++ ds'). split; [now rewrite map_app, Hmap, Hmap'|].
    rewrite Hrun. cbn [offset state_file handled]. now rewrite <- app_assoc.
Qed.

End Started.

(** X15: when the handler can always be started, a pass of the watcher over
    unread lines none of which holds JSON that is no object reads to the end
    of the file.  It runs the handler for exactly the lines that parse to an
    object, in the order of the file and each with its parsed event, blank
    and malformed lines left out; each invocation is for one line, whose
    bytes start where the lines before it end; and the offset it tells is
    the length of the file, or the offset it started from when the file is
    shorter. *)
Theorem pass_runs_the_handler_for_each_object_line (calls offset : nat)
    (content : string) :
  let unread := lines (seek offset content) in
  (forall n event, run_command n event <> OSError) ->
  Forall (fun raw => fatal raw = false) unread ->
  exists ds,
    read_from calls offset content =
      Finished ds (Nat.max offset (String.length content)) /\
    map payload ds = omap parsed unread /\
    Forall (delivery_of_line offset unread) ds.
Proof.
  cbv zeta. intros Hstart H.
  destruct (read_lines_harmless Hstart _ calls offset H) as (ds & Hds & Hmap & Hpos).
  exists ds. split; [|now split].
  unfold Watcher.read_from. rewrite Hds, lines_total_length, seek_length. f_equal. lia.
Qed.

(** X16: when the handler can always be started, a line that holds JSON but
    no object stops the watcher and is met again at every restart.  When
    such a line follows, in the unread part of the log, lines none of which
    is of this kind, then however often the watcher polls the log and is
    restarted, the state file and the offset stay where they were, the
    handler has been run once more, at every round, for each object line
    before the offending one, and the next poll ends the process again. *)
Theorem non_object_line_is_replayed_at_every_restart (file : option nat)
    (content : string) (before after : list string) (raw : string) (k : nat) :
  (forall n event, run_command n event <> OSError) ->
  lines (seek (load_state file) content) = before ++ raw :: after ->
  Forall (fun l => fatal l = false) before ->
  fatal raw = true ->
  let round := [Poll (Present content); Restart] in
  let p := run (concat (replicate k round)) (boot file) in
  state_file p = file /\
  offset p = load_state file /\
  map payload (handled p) = concat (replicate k (omap parsed before)) /\
  alive p = true /\
  alive (run [Poll (Present content)] p) = false.
Proof.
  intros Hstart Hlines Hbefore Hraw. cbv zeta.
  destruct (fatal_rounds Hstart content before after raw k (boot file))
    as (ds & Hmap & Hrun); [reflexivity | reflexivity | exact Hlines | exact Hbefore
                            | exact Hraw |].
  rewrite Hrun. cbn [boot state_file offset handled alive app].
  split; [reflexivity|]. split; [reflexivity|]. split; [exact Hmap|].
  split; [reflexivity|].
  destruct (fatal_round Hstart content before after raw
              (mkProc (load_state file) file ds true))
    as (ds' & _ & Hpoll & _); [reflexivity | reflexivity | exact Hlines | exact Hbefore
                               | exact Hraw |].
  now rewrite Hpoll.
Qed.

(** X17: when the handler can always be started, appending to a log that
    ends with a line feed loses nothing.  When the unread part of the log is
    empty or ends with a line feed, polling it and then polling it again
    with more text appended runs the handler for the same lines, in the same
    order, as one poll of the longer log, and leaves the process alive or
    not as that poll does; when the process is left alive, offset and state
    file are the same too. *)
Theorem appended_lines_are_read_as_if_at_once (file : option nat) (c1 c2 : string) :
  (forall n event, run_command n event <> OSError) ->
  whole_lines (seek (load_state file) c1) ->
  let twice := watch [Present c1; Present (c1 +:+ c2)] (boot file) in
  let once := watch [Present (c1 +:+ c2)] (boot file) in
  handled twice = handled once /\
  alive twice = alive once /\
  (alive once = true -> twice = once).
Proof.
  intros Hstart Hwhole. cbv zeta. unfold Watcher.watch, Watcher.run, Watcher.start, boot.
  cbn [map fold_left Watcher.step alive state_file offset handled Watcher.watch_cycle
       app length].
  set (resume := load_state file) in *.
  assert (read_from 0 resume (c1 +:+ c2) =
          match read_from 0 resume c1 with
          | Finished ds tell =>
              match read_from (length ds) tell (c1 +:+ c2) with
              | Finished ds2 tell2 => Finished (ds ++ ds2) tell2
              | Died ds2 => Died (ds ++ ds2)
              | Abandoned ds2 => Abandoned (ds ++ ds2)
              end
          | Died ds => Died ds
          | Abandoned ds => Abandoned ds
          end) as Hsplit.
  { destruct (Nat.le_ge_cases resume (String.length c1)) as [Hle|Hge].
    - unfold Watcher.read_from at 1 2. rewrite seek_app_le by exact Hle.
      rewrite lines_app_whole by exact Hwhole. rewrite read_lines_app.
      pose proof (read_lines_bounds json_loads run_command
                    (lines (seek resume c1)) 0 resume) as [_ Hb].
      destruct (read_lines 0 resume (lines (seek resume c1))) as [ds tell|ds|ds];
        [|reflexivity|reflexivity].
      destruct Hb as [-> _]. rewrite lines_total_length, seek_length.
      replace (resume + (String.length c1 - resume)) with (String.length c1) by lia.
      unfold Watcher.read_from. cbn [Nat.add]. now rewrite seek_app.
    - unfold Watcher.read_from at 2. rewrite (seek_past_end _ _ Hge).
      cbn [lines Watcher.read_lines length].
      now destruct (read_from 0 resume (c1 +:+ c2)). }
  rewrite Hsplit.
  pose proof (fun ds => read_lines_not_abandoned Hstart (lines (seek resume c1)) 0 resume ds)
    as Hfirst.
  fold (read_from 0 resume c1) in Hfirst.
  destruct (read_from 0 resume c1) as [ds tell|ds|ds];
    cbn [alive offset handled state_file app];
    [|now repeat split|now destruct (Hfirst ds)].
  pose proof (fun ds2 => read_lines_not_abandoned Hstart
                           (lines (seek tell (c1 +:+ c2))) (length ds) tell ds2) as Hsecond.
  fold (read_from (length ds) tell (c1 +:+ c2)) in Hsecond.
  destruct (read_from (length ds) tell (c1 +:+ c2)) as [ds2 tell2|ds2|ds2];
    cbn [alive offset handled state_file app];
    [now repeat split| |now destruct (Hsecond ds2)].
  split; [reflexivity|]. split; [reflexivity | discriminate].
Qed.

(** X18: a log that is not longer than the offset is left unread.  A turn of
    the loop over such a file runs no handler, keeps the offset and writes
    it to the state file; and as long as what is appended does not take the
    file past the offset, a pass reads nothing of it. *)
Theorem shorter_file_is_left_unread (content : string) (p : Proc Obj) :
  String.length content <= offset p ->
  watch_cycle (Present content) p =
    mkProc (offset p) (Some (offset p)) (handled p) (alive p) /\
  forall calls appended,
    String.length (content +:+ appended) <= offset p ->
    read_from calls (offset p) (content +:+ appended) = Finished [] (offset p).
Proof.
  intros H.
  assert (forall calls c, String.length c <= offset p ->
                          read_from calls (offset p) c = Finished [] (offset p))
    as Hread.
  { intros calls c Hc. unfold Watcher.read_from. now rewrite (seek_past_end _ _ Hc). }
  split; [|intros calls appended; apply Hread].
  cbn [Watcher.watch_cycle]. rewrite (Hread _ _ H). now rewrite app_nil_r.
Qed.

End Tail.
End WatcherPassFacts.

Module WatcherPassRuns.
Import PyStr Watcher WatcherSpec WatcherFacts WatcherPassSpec WatcherPassFacts DemoLog DemoMore.

Local Open Scope nat_scope.

(** The demo log from its start: three events, and the fragment passed
    over. *)
Lemma pass_runs_the_handler_for_each_object_line_witness :
  exists ds,
    read_from demo_json_loads demo_run_command 0 0 truncated_log = Finished ds 134 /\
    map payload ds = [ev "completed" "J1"; ev "error" "J2"; ev "stuck" "J3"] /\
    Forall (delivery_of_line demo_json_loads 0 (lines truncated_log)) ds.
Proof.
  apply (pass_runs_the_handler_for_each_object_line demo_json_loads demo_run_command
           0 0 truncated_log).
  - intros n event. discriminate.
  - repeat constructor.
Defined.

(** Three rounds over the log with [42] on its second line: the first event
    is handled three times and the offset stays at 0. *)
Lemma non_object_line_is_replayed_at_every_restart_witness :
  let round := [Poll (Present numbered_log); Restart] in
  let p := run demo_json_loads demo_run_command (concat (replicate 3 round)) (boot None) in
  state_file p = None /\
  offset p = 0 /\
  map payload (handled p) =
    [ev "completed" "J1"; ev "completed" "J1"; ev "completed" "J1"] /\
  alive p = true /\
  alive (run demo_json_loads demo_run_command [Poll (Present numbered_log)] p) = false.
Proof.
  apply (non_object_line_is_replayed_at_every_restart demo_json_loads demo_run_command
           None numbered_log
           [dumps (ev "completed" "J1") +:+ LF] [dumps (ev "stuck" "J3") +:+ LF]
           ("42" +:+ LF) 3);
    [intros n event; discriminate | reflexivity | repeat constructor | reflexivity].
Defined.

(** The three full lines, then the fourth appended. *)
Lemma appended_lines_are_read_as_if_at_once_witness :
  let twice :=
    watch demo_json_loads demo_run_command
          [Present three_lines; Present (three_lines +:+ fourth_line +:+ LF)]
          (boot None) in
  let once :=
    watch demo_json_loads demo_run_command
          [Present (three_lines +:+ fourth_line +:+ LF)] (boot None) in
  handled twice = handled once /\
  alive twice = alive once /\
  (alive once = true -> twice = once).
Proof.
  apply (appended_lines_are_read_as_if_at_once demo_json_loads demo_run_command
           None three_lines (fourth_line +:+ LF)).
  - intros n event. discriminate.
  - right.
    exists (dumps (ev "completed" "J1") +:+ LF +:+ dumps (ev "error" "J2") +:+ LF +:+
            dumps (ev "stuck" "J3")).
    reflexivity.
Defined.

(** A watcher at offset 134 that finds the log cut back to its 109 bytes. *)
Lemma shorter_file_is_left_unread_witness :
  let p := mkProc 134 (Some 134) ([] : list (Delivery (list (string * string)))) true in
  watch_cycle demo_json_loads demo_run_command (Present three_lines) p = p /\
  forall calls appended,
    String.length (three_lines +:+ appended) <= 134 ->
    read_from demo_json_loads demo_run_command calls 134 (three_lines +:+ appended) =
      Finished [] 134.
Proof.
  apply (shorter_file_is_left_unread demo_json_loads demo_run_command three_lines
           (mkProc 134 (Some 134) [] true)).
  vm_compute. lia.
Defined.

End WatcherPassRuns.
